(** * pm-graph  lib/googleapi.py : path resolver, lock guard and resilient executor

    A shallow embedding of [lib/googleapi.py].  The Python module talks to
    three things it does not own: the Google Drive/Sheets service, the
    lock file [/tmp/googleapi.lock] and the clock.  They are gathered in
    an interface [Env]; the module's own globals ([gdriveids]) and the
    actions it performs (requests sent, lines printed, sleeps, lock
    attempts) are kept in an explicit [world] that every function threads
    through a state-and-error monad [M].  *)

From Stdlib Require Import ZArith Ascii String List Lia.
From stdpp Require Import base option list gmap strings pretty.

Open Scope string_scope.
Open Scope list_scope.
Open Scope Z_scope.

(** ** Strings as Python uses them *)

Module Py.

(** [bool(s)] for a [str]. *)
Definition truthy (s : string) : bool := negb (String.eqb s "").

(** [bool(x)] for an argument that is a [str] or [None]. *)
Definition truthy_opt (o : option string) : bool :=
  match o with Some s => truthy s | None => false end.

(** [sub in s]. *)
Fixpoint contains (sub s : string) : bool :=
  String.prefix sub s ||
  match s with
  | EmptyString => false
  | String _ r => contains sub r
  end.

(** [s.split(c)] for a one-character separator. *)
Fixpoint split (c : ascii) (s : string) : list string :=
  match s with
  | EmptyString => [""]
  | String a r =>
      if Ascii.eqb a c then "" :: split c r
      else match split c r with
           | x :: xs => String a x :: xs
           | [] => [String a ""]
           end
  end.

(** [s.split(sub)[0]] : the part of [s] before the first occurrence of a
    non-empty [sub]. *)
Fixpoint before (sub s : string) : string :=
  if String.prefix sub s then ""
  else match s with
       | EmptyString => ""
       | String a r => String a (before sub r)
       end.

(** [s[n:m]] for [0 <= n <= m]. *)
Definition slice (n m : nat) (s : string) : string :=
  String.substring n (m - n) s.

Definition slash : ascii := "/"%char.

(** [(p[:i], p[i:])] with [i = p.rfind('/') + 1]. *)
Fixpoint rsplit_slash (p : string) : string * string :=
  match p with
  | EmptyString => ("", "")
  | String a r =>
      let '(h, t) := rsplit_slash r in
      if truthy h then (String a h, t)
      else if Ascii.eqb a slash then ("/", t)
      else ("", String a t)
  end.

(** [s == '/' * len(s)]. *)
Fixpoint all_slash (s : string) : bool :=
  match s with
  | EmptyString => true
  | String a r => Ascii.eqb a slash && all_slash r
  end.

(** [s.rstrip('/')]. *)
Fixpoint rstrip_slash (s : string) : string :=
  match s with
  | EmptyString => ""
  | String a r =>
      match rstrip_slash r with
      | EmptyString => if Ascii.eqb a slash then "" else String a ""
      | r' => String a r'
      end
  end.

(** [posixpath.dirname]. *)
Definition dirname (p : string) : string :=
  let head := fst (rsplit_slash p) in
  if truthy head && negb (all_slash head) then rstrip_slash head else head.

(** [posixpath.basename]. *)
Definition basename (p : string) : string := snd (rsplit_slash p).

(** [s.startswith('/')] and [s.endswith('/')]. *)
Definition starts_slash (s : string) : bool := String.prefix "/" s.

Fixpoint ends_slash (s : string) : bool :=
  match s with
  | EmptyString => false
  | String a EmptyString => Ascii.eqb a slash
  | String _ r => ends_slash r
  end.

(** [posixpath.join(a, b)]. *)
Definition join (a b : string) : string :=
  if starts_slash b then b
  else if negb (truthy a) || ends_slash a then a +:+ b
  else a +:+ "/" +:+ b.

(** The line feed and escape characters of the printed texts. *)
Definition nl : string := String (ascii_of_nat 10) "".
Definition esc : string := String (ascii_of_nat 27) "".

(** [''.join(c for i in range(n))]. *)
Fixpoint repeat_char (c : ascii) (n : nat) : string :=
  match n with
  | O => ""
  | S n' => String c (repeat_char c n')
  end.

End Py.

(** ** The remote service as the module sees it *)

(** A file resource of a listing is a dict of string fields
    ([id], [name], [createdTime], [mimeType], as [fields] selects). *)
Abbreviation item := (gmap string string).

(** The four search queries the module sends.  [query_text] is the text
    the source builds with [%]; the service interprets it, so a request
    carries the query itself. *)
Inductive query :=
| QFolderNamed (fmime pid subdir : string)
| QNamed (folder name : string)
| QChildren (gid : string)
| QFilesIn (fmime gid : string).

Definition query_text (q : query) : string :=
  match q with
  | QFolderNamed fmime pid subdir =>
      "trashed = false and mimeType = '" +:+ fmime +:+ "' and '" +:+ pid
        +:+ "' in parents and name = '" +:+ subdir +:+ "'"
  | QNamed folder name =>
      "trashed = false and '" +:+ folder +:+ "' in parents and name = '"
        +:+ name +:+ "'"
  | QChildren gid => "trashed = false and '" +:+ gid +:+ "' in parents"
  | QFilesIn fmime gid =>
      "trashed = false and mimeType != '" +:+ fmime +:+ "' and '" +:+ gid
        +:+ "' in parents"
  end.

(** The [body] of a create or upload: [{'name':..}] with the optional
    [mimeType] and [parents]. *)
Record metadata := Metadata {
  md_name : string;
  md_mimeType : option string;
  md_parents : option (list string)
}.

(** One [....execute()] (or [discovery.build]) of the client library.
    [FilesList] always asks for [pageSize=1000, orderBy=None];
    [FilesUpdateParents] carries the parents to remove as the list the
    source joins with commas. *)
Inductive request :=
| FilesList (q : query) (fields : string) (pageToken : option string)
| FilesGet (fileId : string)
| FilesUpdateName (fileId name : string)
| FilesCreate (body : metadata) (media_body : option string)
| FilesDelete (fileId : string)
| FilesUpdateParents (fileId addParents : string) (removeParents : list string)
| SheetsCreate (body : string)
| SheetsBatchUpdate (spreadsheetId body : string)
| Build (service version creds : string).

(** The dict a successful request returns: the keys the module reads. *)
Record response := Response {
  r_files : option (list item);
  r_nextPageToken : option string;
  r_parents : option (list string);
  r_id : string
}.

Definition empty_response : response := Response None None None "".

(** What the process cannot control.  [execute] either raises (the text
    of the exception) or returns the response; [flock] is one
    [open(path,'w')] followed by a non-blocking exclusive [flock], true
    when neither raised; [os_remove] may raise. *)
Class Env (E : Type) := {
  execute : request -> E -> E * (string + response);
  flock : string -> E -> E * bool;
  sleep : Z -> E -> E;
  os_remove : string -> E -> E * option string;
  getpid : E -> Z;
  getpgrp : E -> Z
}.

(** What the process does, in order. *)
Inductive event :=
| EvRequest (r : request)
| EvPrint (line : string)
| EvSleep (seconds : Z)
| EvFlock (path : string) (acquired : bool)
| EvClose (path : string)
| EvRemove (path : string).

(** How a call ends: a value, a Python [Exception] (its text), or
    [sys.exit]; [OutOfFuel] is the model's own, for a recursion or loop
    longer than the budget it was given. *)
Inductive outcome (A : Type) :=
| Ok (a : A)
| Raise (e : string)
| Exit (code : Z)
| OutOfFuel.
Arguments Ok {A} a.
Arguments Raise {A} e.
Arguments Exit {A} code.
Arguments OutOfFuel {A}.

Section Monad.
Context {E : Type} `{Env E}.

Record world := World {
  env : E;
  gdriveids : gmap string string;
  log : list event
}.

Definition M (A : Type) : Type := world -> outcome A * world.

Definition ret {A} (a : A) : M A := fun w => (Ok a, w).

Definition bind {A B} (m : M A) (k : A -> M B) : M B :=
  fun w =>
    match m w with
    | (Ok a, w') => k a w'
    | (Raise e, w') => (Raise e, w')
    | (Exit c, w') => (Exit c, w')
    | (OutOfFuel, w') => (OutOfFuel, w')
    end.

(** [try: m  except Exception as e: h(str(e))] ; [SystemExit] is not an
    [Exception] and passes through. *)
Definition try_except {A} (m : M A) (h : string -> M A) : M A :=
  fun w =>
    match m w with
    | (Raise e, w') => h e w'
    | r => r
    end.

Definition raise {A} (e : string) : M A := fun w => (Raise e, w).
Definition sys_exit {A} (code : Z) : M A := fun w => (Exit code, w).
Definition out_of_fuel {A} : M A := fun w => (OutOfFuel, w).

Definition emit (ev : event) : M unit :=
  fun w => (Ok tt, World (env w) (gdriveids w) (log w ++ [ev])).

Definition print (line : string) : M unit := emit (EvPrint line).

Definition time_sleep (d : Z) : M unit :=
  fun w => (Ok tt, World (sleep d (env w)) (gdriveids w) (log w ++ [EvSleep d])).

Definition os_getpid : M Z := fun w => (Ok (getpid (env w)), w).
Definition os_getpgrp : M Z := fun w => (Ok (getpgrp (env w)), w).

(** One request sent to the service. *)
Definition remote (r : request) : M response :=
  fun w =>
    let '(e', res) := execute r (env w) in
    let w' := World e' (gdriveids w) (log w ++ [EvRequest r]) in
    match res with
    | inl err => (Raise err, w')
    | inr v => (Ok v, w')
    end.

(** The cache [gdriveids]. *)
Definition cache_set (k v : string) : M unit :=
  fun w => (Ok tt, World (env w) (<[k:=v]> (gdriveids w)) (log w)).

(** [del gdriveids[k]] : a [KeyError] when [k] is not a key. *)
Definition cache_del (k : string) : M unit :=
  fun w =>
    match gdriveids w !! k with
    | Some _ => (Ok tt, World (env w) (delete k (gdriveids w)) (log w))
    | None => (Raise ("KeyError: '" +:+ k +:+ "'"), w)
    end.

(** [k in gdriveids and gdriveids[k]] : the cached id when it is truthy. *)
Definition cached (w : world) (k : string) : option string :=
  match gdriveids w !! k with
  | Some v => if Py.truthy v then Some v else None
  | None => None
  end.

Definition cache_hit (k : string) : M (option string) :=
  fun w => (Ok (cached w k), w).

End Monad.

Arguments world E : clear implicits.
Arguments M E A : clear implicits.

Notation "x <- m ;; k" := (bind m (fun x => k))
  (at level 100, m at next level, right associativity,
   format "'[v' x  <-  m  ;;  '/' k ']'").
Notation "m ;;; k" := (bind m (fun _ => k))
  (at level 100, right associativity,
   format "'[v' m  ;;;  '/' k ']'").

(** ** 4.1  The resilient call executor *)

(** [google_api_command(cmd, arg1, arg2, arg3)] with the arguments each
    command reads; [CmdOther] is any other command name. *)
Inductive command :=
| CmdList (arg1 : query) (arg2 arg3 : option string)
| CmdGet (arg1 : string)
| CmdRename (arg1 arg2 : string)
| CmdCreate (arg1 : metadata)
| CmdDelete (arg1 : string)
| CmdMove (arg1 arg2 : string)
| CmdUpload (arg1 : metadata) (arg2 : string)
| CmdCreateSheet (arg1 : string)
| CmdFormatSheet (arg1 arg2 : string)
| CmdInitDrive (arg1 : string)
| CmdInitSheet (arg1 : string)
| CmdOther (cmd : string).

Definition cmd_name (c : command) : string :=
  match c with
  | CmdList _ _ _ => "list"
  | CmdGet _ => "get"
  | CmdRename _ _ => "rename"
  | CmdCreate _ => "create"
  | CmdDelete _ => "delete"
  | CmdMove _ _ => "move"
  | CmdUpload _ _ => "upload"
  | CmdCreateSheet _ => "createsheet"
  | CmdFormatSheet _ _ => "formatsheet"
  | CmdInitDrive _ => "initdrive"
  | CmdInitSheet _ => "initsheet"
  | CmdOther cmd => cmd
  end.

(** What [google_api_command] returns: the aggregated list of a [list],
    the response of any other command, or [False]. *)
Inductive value :=
| VFiles (files : list item)
| VResponse (r : response)
| VFalse.

Definition files_of (v : value) : list item :=
  match v with VFiles l => l | _ => [] end.

Definition response_of (v : value) : response :=
  match v with VResponse r => r | _ => empty_response end.

(** [ffmt.format(arg2) if arg2 else ffmt.format('id,name')]. *)
Definition fsel (arg2 : option string) : string :=
  "nextPageToken,files("
    +:+ (if Py.truthy_opt arg2 then default "" arg2 else "id,name") +:+ ")".

(** Lines 193-196: the wait of a rate-limited retry. *)
Definition backoff (p g : Z) : Z :=
  let d := if Z.eqb p g then 1 else (p - g) mod 10 in
  let d := if Z.eqb d 0 then 10 else d in
  d + 5.

Definition rate_limited (e : string) : bool :=
  Py.contains "User Rate Limit Exceeded" e || Py.contains "Quota exceeded" e.

Section Executor.
Context {E : Type} `{Env E}.

(** The body of the [try] (lines 151-187); [self] is the function itself,
    called for the next page with the default [retry=0]. *)
Definition attempt (self : command -> nat -> M E value) (cmd : command)
  : M E value :=
  match cmd with
  | CmdList arg1 arg2 arg3 =>
      res <- remote (FilesList arg1 (fsel arg2)
                       (if Py.truthy_opt arg3 then arg3 else None)) ;;
      match r_files res with
      | None => ret (VFiles [])
      | Some files =>
          match r_nextPageToken res with
          | Some tok =>
              more <- self (CmdList arg1 arg2 (Some tok)) O ;;
              ret (VFiles (files ++ files_of more))
          | None => ret (VFiles files)
          end
      end
  | CmdGet arg1 =>
      res <- remote (FilesGet arg1) ;; ret (VResponse res)
  | CmdRename arg1 arg2 =>
      res <- remote (FilesUpdateName arg1 arg2) ;; ret (VResponse res)
  | CmdCreate arg1 =>
      res <- remote (FilesCreate arg1 None) ;; ret (VResponse res)
  | CmdDelete arg1 =>
      res <- remote (FilesDelete arg1) ;; ret (VResponse res)
  | CmdMove arg1 arg2 =>
      file <- remote (FilesGet arg1) ;;
      match r_parents file with
      | None => raise "can only join an iterable"
      | Some oldpar =>
          res <- remote (FilesUpdateParents arg1 arg2 oldpar) ;;
          ret (VResponse res)
      end
  | CmdUpload arg1 arg2 =>
      res <- remote (FilesCreate arg1 (Some arg2)) ;; ret (VResponse res)
  | CmdCreateSheet arg1 =>
      res <- remote (SheetsCreate arg1) ;; ret (VResponse res)
  | CmdFormatSheet arg1 arg2 =>
      res <- remote (SheetsBatchUpdate arg1 arg2) ;; ret (VResponse res)
  | CmdInitDrive arg1 =>
      res <- remote (Build "drive" "v3" arg1) ;; ret (VResponse res)
  | CmdInitSheet arg1 =>
      res <- remote (Build "sheets" "v4" arg1) ;; ret (VResponse res)
  | CmdOther _ => ret VFalse
  end.

(** Lines 192-201: announce the retry and wait. *)
Definition wait_before_retry (cmd : command) (e : string) : M E unit :=
  if rate_limited e then
    p <- os_getpid ;;
    g <- os_getpgrp ;;
    let d := backoff p g in
    print ("RETRYING " +:+ cmd_name cmd +:+ ": Rate Limit Exceeded (GID "
             +:+ pretty g +:+ ", PID " +:+ pretty p +:+ ", WAIT " +:+ pretty d
             +:+ " sec)") ;;;
    time_sleep d
  else
    print ("RETRYING " +:+ cmd_name cmd +:+ ": " +:+ e) ;;;
    time_sleep 3.

(** The [except Exception as e] clause (lines 188-202). *)
Definition on_error (self : command -> nat -> M E value) (cmd : command)
    (retry : nat) (e : string) : M E value :=
  if (10 <=? retry)%nat then
    print ("ERROR: " +:+ e +:+ Py.nl) ;;;
    sys_exit 1
  else
    wait_before_retry cmd e ;;;
    self cmd (S retry).

(** [google_api_command]; [fuel] bounds the depth of its calls to itself
    (one per retry, one per further page). *)
Fixpoint google_api_command (fuel : nat) (cmd : command) (retry : nat)
  : M E value :=
  match fuel with
  | O => out_of_fuel
  | S fuel' =>
      try_except (attempt (google_api_command fuel') cmd)
                 (on_error (google_api_command fuel') cmd retry)
  end.

End Executor.

(** ** 4.2  The local mutual-exclusion guard *)

Definition lockfile : string := "/tmp/googleapi.lock".

Section Guard.
Context {E : Type} `{Env E}.

(** One turn of the [while] of [mutex_lock]. *)
Definition lock_attempt : M E bool :=
  fun w =>
    let '(e', ok) := flock lockfile (env w) in
    let w' := World e' (gdriveids w) (log w ++ [EvFlock lockfile ok]) in
    if ok then (Ok true, w') else (time_sleep 1 ;;; ret false) w'.

(** The loop [while i < wait and not success], entered with [n] turns
    left and the flag [success]. *)
Fixpoint lock_loop (n : nat) (success : bool) : M E bool :=
  match n with
  | O => ret success
  | S n' =>
      if success then ret success
      else (ok <- lock_attempt ;; lock_loop n' ok)
  end.

(** [mutex_lock(wait)] : the handle is the open lock file. *)
Definition mutex_lock (wait : Z) : M E string :=
  success <- lock_loop (Z.to_nat wait) false ;;
  if success then ret lockfile
  else (print "googleapi could not get a lock" ;;; sys_exit 1).

(** [mutex_unlock(fp)]. *)
Definition mutex_unlock (fp : string) : M E unit :=
  emit (EvClose fp) ;;;
  fun w =>
    let '(e', err) := os_remove lockfile (env w) in
    let w' := World e' (gdriveids w) (log w ++ [EvRemove lockfile]) in
    match err with
    | Some e => (Raise e, w')
    | None => (Ok tt, w')
    end.

End Guard.

(** ** 4.3  The path resolver and the operations built on it *)

Definition fmime : string := "application/vnd.google-apps.folder".

(** [out[0]['id']] when [len(out) > 0 and 'id' in out[0]]. *)
Definition first_id (out : list item) : option string :=
  match out with
  | x :: _ => x !! "id"
  | [] => None
  end.

(** How the [for] of [gdrive_mkdir] ends: by the [return ''] inside it, or
    by running out of segments with the id reached. *)
Inductive walk_end :=
| Returned (v : string)
| Finished (pid : string).

(** The suffix tried at the [n]-th turn of the [while] of [gdrive_backup]:
    [.bak], [.bak1], [.bak2], ... *)
Definition bak_suffix (n : nat) : string :=
  match n with
  | O => ".bak"
  | S _ => ".bak" +:+ pretty n
  end.

(** [color(str, color)]. *)
Definition color (str : string) (c : Z) : string :=
  Py.esc +:+ "[" +:+ pretty c +:+ ";40m" +:+ str +:+ Py.esc +:+ "[m".

(** The time column of a listing. *)
Definition created_column (ct : string) : string :=
  if (String.length ct =? 24)%nat
  then Py.slice 0 10 ct +:+ " " +:+ Py.slice 11 19 ct
  else ct.

(** [sorted(l, key=...)] once the keys are computed: a stable sort. *)
Section Sorted.
Context {K A : Type} (lt : K -> K -> bool).

Fixpoint insert_sorted (x : K * A) (l : list (K * A)) : list (K * A) :=
  match l with
  | [] => [x]
  | y :: l' => if lt (fst y) (fst x) then y :: insert_sorted x l'
               else x :: y :: l'
  end.

Definition sorted_by_key (l : list (K * A)) : list A :=
  map snd (foldr insert_sorted [] l).

End Sorted.

(** The order of Python tuples of three strings. *)
Definition lt3 (a b : string * string * string) : bool :=
  let '(a1, a2, a3) := a in
  let '(b1, b2, b3) := b in
  String.ltb a1 b1
  || (String.eqb a1 b1
      && (String.ltb a2 b2 || (String.eqb a2 b2 && String.ltb a3 b3))).

(** [op.join(cpath, subdir) if cpath else subdir]. *)
Definition next_cpath (cpath subdir : string) : string :=
  if Py.truthy cpath then Py.join cpath subdir else subdir.

Section Resolver.
Context {E : Type} `{Env E}.

(** The budget handed to every [google_api_command] and [while]. *)
Variable fuel : nat.

(** [d[k]] on a file resource. *)
Definition item_get (it : item) (k : string) : M E string :=
  match it !! k with
  | Some v => ret v
  | None => raise ("KeyError: '" +:+ k +:+ "'")
  end.

(** [for x in l: body(x)]. *)
Fixpoint for_each {A} (l : list A) (body : A -> M E unit) : M E unit :=
  match l with
  | [] => ret tt
  | x :: l' => body x ;;; for_each l' body
  end.

(** The keys of [sorted(l, key=f)], computed before any comparison. *)
Fixpoint with_keys {K} (f : item -> M E K) (l : list item)
  : M E (list (K * item)) :=
  match l with
  | [] => ret []
  | x :: l' => k <- f x ;; r <- with_keys f l' ;; ret ((k, x) :: r)
  end.

(** The [for subdir in dir.split('/')] of [gdrive_mkdir] (lines 236-255). *)
Fixpoint mkdir_walk (readonly : bool) (subdirs : list string)
    (pid cpath : string) : M E walk_end :=
  match subdirs with
  | [] => ret (Finished pid)
  | subdir :: rest =>
      let cpath := next_cpath cpath subdir in
      hit <- cache_hit cpath ;;
      match hit with
      | Some id => mkdir_walk readonly rest id cpath
      | None =>
          out <- google_api_command fuel
                   (CmdList (QFolderNamed fmime pid subdir) None None) O ;;
          match first_id (files_of out) with
          | Some id =>
              cache_set cpath id ;;;
              mkdir_walk readonly rest id cpath
          | None =>
              if readonly then ret (Returned "")
              else
                file <- google_api_command fuel
                          (CmdCreate (Metadata subdir (Some fmime) (Some [pid])))
                          O ;;
                let pid := r_id (response_of file) in
                cache_set cpath pid ;;;
                mkdir_walk readonly rest pid cpath
          end
      end
  end.

(** [gdrive_mkdir(dir, readonly)]. *)
Definition gdrive_mkdir (dir : string) (readonly : bool) : M E string :=
  if negb (Py.truthy dir) then ret "root"
  else
    lock <- (if readonly then ret "" else mutex_lock 60) ;;
    r <- mkdir_walk readonly (Py.split Py.slash dir) "root" "" ;;
    match r with
    | Returned v => ret v
    | Finished pid =>
        (if readonly then ret tt else mutex_unlock lock) ;;;
        ret pid
    end.

(** [gdrive_get(folder, name)]. *)
Definition gdrive_get (folder name : string) : M E (list item) :=
  out <- google_api_command fuel (CmdList (QNamed folder name) None None) O ;;
  ret (files_of out).

(** [gdrive_find(gpath)]. *)
Definition gdrive_find (gpath : string) : M E string :=
  hit <- cache_hit gpath ;;
  match hit with
  | Some id => ret id
  | None =>
      let dir := Py.dirname gpath in
      let file := Py.basename gpath in
      let dir := if String.eqb dir "." || String.eqb dir "/" then "" else dir in
      hit <- cache_hit dir ;;
      pid <- match hit with
             | Some id => ret id
             | None => gdrive_mkdir dir true
             end ;;
      if negb (Py.truthy pid) then ret ""
      else if negb (Py.truthy file) || String.eqb file "." then
        cache_set gpath pid ;;; ret pid
      else
        out <- gdrive_get pid file ;;
        match first_id out with
        | Some id => cache_set gpath id ;;; ret id
        | None => ret ""
        end
  end.

(** [gdrive_delete(folder, name)]. *)
Definition gdrive_delete (folder name : string) : M E unit :=
  items <- gdrive_get folder name ;;
  for_each items (fun it =>
    nm <- item_get it "name" ;;
    id <- item_get it "id" ;;
    print ("deleting duplicate - " +:+ nm +:+ " (" +:+ id +:+ ")") ;;;
    id <- item_get it "id" ;;
    _ <- google_api_command fuel (CmdDelete id) O ;;
    ret tt) ;;;
  cache_del (Py.join folder name).

(** The [while len(gdrive_get(bfid, name+append)) > 0] of [gdrive_backup],
    at its [i]-th test. *)
Fixpoint backup_probe (n : nat) (bfid name : string) (i : nat) : M E string :=
  match n with
  | O => out_of_fuel
  | S n' =>
      out <- gdrive_get bfid (name +:+ bak_suffix i) ;;
      if (0 <? length out)%nat then backup_probe n' bfid name (S i)
      else ret (bak_suffix i)
  end.

(** [gdrive_backup(folder, name)]. *)
Definition gdrive_backup (folder name : string) : M E bool :=
  let gpath := Py.join folder name in
  fid <- gdrive_find folder ;;
  id <- gdrive_find gpath ;;
  if negb (Py.truthy id) || negb (Py.truthy fid) then ret false
  else
    bfid <- gdrive_mkdir (Py.join folder "old") false ;;
    append <- backup_probe fuel bfid name O ;;
    print ("moving duplicate - " +:+ name +:+ " -> old/" +:+ name +:+ append) ;;;
    _ <- google_api_command fuel (CmdRename id (name +:+ append)) O ;;
    _ <- google_api_command fuel (CmdMove id bfid) O ;;
    cache_del gpath ;;;
    ret true.

(** [disallow(cmd)]. *)
Definition disallow (cmd : string) : M E unit :=
  if String.eqb cmd "gclear" then
    print ("You do not have permission to perform this function: " +:+ cmd) ;;;
    sys_exit 1
  else ret tt.

Definition sep : string := Py.repeat_char "-"%char 80.

(** The [elif cmd == 'list'] branch of [gdrive_command_simple]. *)
Definition list_branch (gid : string) : M E unit :=
  v <- google_api_command fuel
         (CmdList (QChildren gid) (Some "id,name,createdTime,mimeType") None) O ;;
  let out := files_of v in
  print sep ;;;
  keyed <- with_keys (fun k =>
             m <- item_get k "mimeType" ;;
             n <- item_get k "name" ;;
             c <- item_get k "createdTime" ;;
             ret (m, Py.before ".bak" n, c)) out ;;
  cnt <- foldl (fun acc file =>
           c <- acc ;;
           let '(fcnt, dcnt) := c in
           ct <- item_get file "createdTime" ;;
           let tm := created_column ct in
           mt <- item_get file "mimeType" ;;
           nm <- item_get file "name" ;;
           if Py.contains "folder" mt then
             let fc := if String.eqb nm "old" then 35 else 36 in
             print ("d " +:+ tm +:+ "  " +:+ color nm fc) ;;;
             ret (fcnt, dcnt + 1)
           else
             print ("- " +:+ tm +:+ "  " +:+ color nm 32) ;;;
             ret (fcnt + 1, dcnt))
         (ret (0, 0)) (sorted_by_key lt3 keyed) ;;
  let '(fcnt, dcnt) := cnt in
  print (sep +:+ Py.nl +:+ "TOTAL = " +:+ pretty (Z.of_nat (length out)) +:+ " ("
           +:+ pretty dcnt +:+ " Folders, " +:+ pretty fcnt +:+ " Files)").

(** The [elif cmd in ['files', 'clear']] branch. *)
Definition files_branch (cmd gid : string) : M E unit :=
  v <- google_api_command fuel
         (CmdList (QFilesIn fmime gid) (Some "id,name,createdTime,mimeType") None)
         O ;;
  let out := files_of v in
  print sep ;;;
  keyed <- with_keys (fun k => item_get k "createdTime") out ;;
  for_each (sorted_by_key String.ltb keyed) (fun file =>
    ct <- item_get file "createdTime" ;;
    let tm := created_column ct in
    nm <- item_get file "name" ;;
    print ("- " +:+ tm +:+ "  " +:+ color nm 32) ;;;
    if String.eqb cmd "gclear" then
      id <- item_get file "id" ;;
      _ <- google_api_command fuel (CmdDelete id) O ;;
      ret tt
    else ret tt) ;;;
  print (sep +:+ Py.nl +:+ "FILES = " +:+ pretty (Z.of_nat (length out))).

(** [gdrive_command_simple(cmd, gpath)]. *)
Definition gdrive_command_simple (cmd gpath : string) : M E bool :=
  disallow cmd ;;;
  gid <- gdrive_find gpath ;;
  if negb (Py.truthy gid) then
    print "ERROR: File not found on google drive" ;;;
    ret false
  else
    (if String.eqb cmd "id" then print gid
     else if String.eqb cmd "link" then
       print ("https://drive.google.com/open?id=" +:+ gid)
     else if String.eqb cmd "delete" then
       _ <- google_api_command fuel (CmdDelete gid) O ;; ret tt
     else if String.eqb cmd "list" then list_branch gid
     else if String.eqb cmd "files" || String.eqb cmd "clear" then
       files_branch cmd gid
     else ret tt) ;;;
    ret true.

End Resolver.

(** ** A remote tree to run the module against

    An instance of [Env]: a Drive holding a finite list of objects that
    hands out ids [id0], [id1], ... and answers a listing in one page, a
    script of the failures to come (one entry per request, [Some e] for a
    request that raises [e]), and a lock file another process holds for
    [lock_busy] more seconds. *)
Module Drive.

Record gobject := GObject {
  o_id : string;
  o_name : string;
  o_mime : string;
  o_parents : list string;
  o_trashed : bool;
  o_created : string
}.

Record state := State {
  objects : list gobject;
  issued : nat;
  faults : list (option string);
  lock_busy : nat;
  pid : Z;
  pgid : Z
}.

Definition fresh_id (n : nat) : string := "id" +:+ pretty n.

Definition to_item (o : gobject) : item :=
  <["id" := o_id o]> (<["name" := o_name o]> (<["mimeType" := o_mime o]>
    (<["createdTime" := o_created o]> ∅))).

Definition child_of (p : string) (o : gobject) : bool :=
  bool_decide (p ∈ o_parents o).

Definition matches (q : query) (o : gobject) : bool :=
  negb (o_trashed o) &&
  match q with
  | QFolderNamed m p n =>
      String.eqb (o_mime o) m && child_of p o && String.eqb (o_name o) n
  | QNamed p n => child_of p o && String.eqb (o_name o) n
  | QChildren g => child_of g o
  | QFilesIn m g => negb (String.eqb (o_mime o) m) && child_of g o
  end.

Definition has_id (i : string) (o : gobject) : bool := String.eqb (o_id o) i.

Definition set_objects (st : state) (os : list gobject) : state :=
  State os (issued st) (faults st) (lock_busy st) (pid st) (pgid st).

Definition rename_object (i n : string) (o : gobject) : gobject :=
  if has_id i o
  then GObject (o_id o) n (o_mime o) (o_parents o) (o_trashed o) (o_created o)
  else o.

Definition reparent_object (i add : string) (rem : list string) (o : gobject)
  : gobject :=
  if has_id i o
  then GObject (o_id o) (o_name o) (o_mime o)
         (List.filter (fun p => negb (bool_decide (p ∈ rem))) (o_parents o)
            ++ [add])
         (o_trashed o) (o_created o)
  else o.

Definition not_found (i : string) : string := "File not found: " +:+ i.

(** The service itself, when the request gets through. *)
Definition serve (r : request) (st : state) : state * (string + response) :=
  match r with
  | FilesList q _ _ =>
      (st, inr (Response
                  (Some (map to_item (List.filter (matches q) (objects st))))
                  None None ""))
  | FilesCreate body _ =>
      let i := fresh_id (issued st) in
      let o := GObject i (md_name body)
                 (default "application/octet-stream" (md_mimeType body))
                 (default ["root"] (md_parents body)) false "" in
      (State (objects st ++ [o]) (S (issued st)) (faults st) (lock_busy st)
         (pid st) (pgid st),
       inr (Response None None None i))
  | FilesGet i =>
      match List.find (has_id i) (objects st) with
      | Some o => (st, inr (Response None None (Some (o_parents o)) i))
      | None => (st, inl (not_found i))
      end
  | FilesUpdateName i n =>
      if existsb (has_id i) (objects st)
      then (set_objects st (map (rename_object i n) (objects st)),
            inr (Response None None None i))
      else (st, inl (not_found i))
  | FilesDelete i =>
      if existsb (has_id i) (objects st)
      then (set_objects st
              (List.filter (fun o => negb (has_id i o)) (objects st)),
            inr empty_response)
      else (st, inl (not_found i))
  | FilesUpdateParents i add rem =>
      if existsb (has_id i) (objects st)
      then (set_objects st (map (reparent_object i add rem) (objects st)),
            inr (Response None None None i))
      else (st, inl (not_found i))
  | SheetsCreate _ | SheetsBatchUpdate _ _ | Build _ _ _ =>
      (st, inr empty_response)
  end.

Definition pop_fault (st : state) : state :=
  State (objects st) (issued st) (tail (faults st)) (lock_busy st)
    (pid st) (pgid st).

Definition exec (r : request) (st : state) : state * (string + response) :=
  match faults st with
  | Some e :: _ => (pop_fault st, inl e)
  | None :: _ => serve r (pop_fault st)
  | [] => serve r st
  end.

Definition try_flock (path : string) (st : state) : state * bool :=
  (st, Nat.eqb (lock_busy st) 0).

Definition wait (d : Z) (st : state) : state :=
  State (objects st) (issued st) (faults st) (lock_busy st - Z.to_nat d)%nat
    (pid st) (pgid st).

#[export] Instance drive_env : Env state := {|
  execute := exec;
  flock := try_flock;
  sleep := wait;
  os_remove := fun _ st => (st, None);
  getpid := pid;
  getpgrp := pgid
|}.

(** The empty tree, nothing to fail, the lock free. *)
Definition empty : state := State [] 0 [] 0 4242 4242.

Definition start (st : state) : world state := World st ∅ [].

End Drive.

(** ** A scripted pager

    A second instance of [Env]: a service that knows one listing, cut in
    pages; each page is stored under the cursor that asks for it. *)
Module Pager.

Definition state := list (option string * response).

Definition same_token (a b : option string) : bool :=
  match a, b with
  | None, None => true
  | Some x, Some y => String.eqb x y
  | _, _ => false
  end.

Fixpoint page_for (tok : option string) (st : state) : option response :=
  match st with
  | [] => None
  | (t, r) :: rest => if same_token t tok then Some r else page_for tok rest
  end.

Definition exec (r : request) (st : state) : state * (string + response) :=
  match r with
  | FilesList _ _ tok =>
      match page_for tok st with
      | Some res => (st, inr res)
      | None => (st, inl "Invalid Value")
      end
  | _ => (st, inl "Not Implemented")
  end.

#[export] Instance pager_env : Env state := {|
  execute := exec;
  flock := fun _ st => (st, true);
  sleep := fun _ st => st;
  os_remove := fun _ st => (st, None);
  getpid := fun _ => 1;
  getpgrp := fun _ => 1
|}.

Definition file (i : string) : item := {["id" := i]}.

(** Three pages of 1000, 1000 and 42 files. *)
Definition three_pages : state :=
  [(None, Response (Some (replicate 1000 (file "p1"))) (Some "t2") None "");
   (Some "t2", Response (Some (replicate 1000 (file "p2"))) (Some "t3") None "");
   (Some "t3", Response (Some (replicate 42 (file "p3"))) None None "")].

End Pager.

(** * Properties *)

(** ** Reasoning about [M] *)

Section Framework.
Context {E : Type} `{Env E}.

(** [m] takes every world to one related to it by [R]. *)
Definition respects (R : world E -> world E -> Prop) {A} (m : M E A) : Prop :=
  forall w, R w (snd (m w)).

(** [m] never ends in a Python exception. *)
Definition noraise {A} (m : M E A) : Prop :=
  forall w e, fst (m w) <> Raise e.

Section Respects.
Context (R : world E -> world E -> Prop) `{!PreOrder R}.

Lemma respects_ret {A} (a : A) : respects R (ret a).
Proof. intros w. reflexivity. Qed.

Lemma respects_raise {A} e : respects R (@raise E A e).
Proof. intros w. reflexivity. Qed.

Lemma respects_exit {A} c : respects R (@sys_exit E A c).
Proof. intros w. reflexivity. Qed.

Lemma respects_out_of_fuel {A} : respects R (@out_of_fuel E A).
Proof. intros w. reflexivity. Qed.

Lemma respects_bind {A B} (m : M E A) (k : A -> M E B) :
  respects R m -> (forall a, respects R (k a)) -> respects R (bind m k).
Proof.
  intros Hm Hk w. unfold bind. specialize (Hm w).
  destruct (m w) as [[a|e|c|] w1]; cbn in *; try assumption.
  etransitivity; [exact Hm | apply Hk].
Qed.

Lemma respects_try {A} (m : M E A) (h : string -> M E A) :
  respects R m -> (forall e, respects R (h e)) -> respects R (try_except m h).
Proof.
  intros Hm Hh w. unfold try_except. specialize (Hm w).
  destruct (m w) as [[a|e|c|] w1]; cbn in *; try assumption.
  etransitivity; [exact Hm | apply Hh].
Qed.

Lemma respects_if {A} (b : bool) (m1 m2 : M E A) :
  respects R m1 -> respects R m2 -> respects R (if b then m1 else m2).
Proof. destruct b; auto. Qed.

End Respects.

Lemma noraise_ret {A} (a : A) : noraise (ret a).
Proof. intros w e. discriminate. Qed.

Lemma noraise_exit {A} c : noraise (@sys_exit E A c).
Proof. intros w e. discriminate. Qed.

Lemma noraise_out_of_fuel {A} : noraise (@out_of_fuel E A).
Proof. intros w e. discriminate. Qed.

Lemma noraise_bind {A B} (m : M E A) (k : A -> M E B) :
  noraise m -> (forall a, noraise (k a)) -> noraise (bind m k).
Proof.
  intros Hm Hk w e. unfold bind. specialize (Hm w).
  destruct (m w) as [[a|e'|c|] w1]; cbn in *; try discriminate.
  - apply Hk.
  - destruct (Hm e' eq_refl).
Qed.

Lemma noraise_try {A} (m : M E A) (h : string -> M E A) :
  (forall e, noraise (h e)) -> noraise (try_except m h).
Proof.
  intros Hh w e. unfold try_except.
  destruct (m w) as [[a|e'|c|] w1]; cbn; try discriminate. apply Hh.
Qed.

Lemma noraise_if {A} (b : bool) (m1 m2 : M E A) :
  noraise m1 -> noraise m2 -> noraise (if b then m1 else m2).
Proof. destruct b; auto. Qed.

Lemma noraise_emit ev : noraise (emit ev).
Proof. intros w e. discriminate. Qed.

Lemma noraise_print l : noraise (print l).
Proof. apply noraise_emit. Qed.

Lemma noraise_time_sleep d : noraise (time_sleep d).
Proof. intros w e. discriminate. Qed.

Lemma noraise_cache_hit k : noraise (cache_hit k).
Proof. intros w e. discriminate. Qed.

Lemma noraise_cache_set k v : noraise (cache_set k v).
Proof. intros w e. discriminate. Qed.

(** The worlds reached by doing only things that satisfy [P]. *)
Definition extends (P : event -> Prop) (w w' : world E) : Prop :=
  exists evs, log w' = log w ++ evs /\ Forall P evs.

#[export] Instance extends_preorder P : PreOrder (extends P).
Proof.
  split.
  - intros w. exists []. split; [symmetry; apply app_nil_r | constructor].
  - intros w1 w2 w3 [l1 [H1 F1]] [l2 [H2 F2]]. exists (l1 ++ l2). split.
    + rewrite H2, H1. symmetry. apply app_assoc.
    + apply Forall_app. split; assumption.
Qed.

(** The worlds with the same cache. *)
Definition same_cache (w w' : world E) : Prop := gdriveids w' = gdriveids w.

#[export] Instance same_cache_preorder : PreOrder same_cache.
Proof.
  split; [intros w; reflexivity|].
  intros w1 w2 w3 H1 H2. unfold same_cache in *. congruence.
Qed.

(** The worlds whose cache has at least the same keys. *)
Definition cache_grows (w w' : world E) : Prop :=
  forall k, is_Some (gdriveids w !! k) -> is_Some (gdriveids w' !! k).

#[export] Instance cache_grows_preorder : PreOrder cache_grows.
Proof.
  split; [intros w k Hk; exact Hk|].
  intros w1 w2 w3 H1 H2 k Hk. apply H2, H1, Hk.
Qed.

Lemma same_cache_grows w w' : same_cache w w' -> cache_grows w w'.
Proof. intros Hs k. rewrite Hs. auto. Qed.

Lemma extends_emit (P : event -> Prop) ev : P ev -> respects (extends P) (emit ev).
Proof. intros HP w. exists [ev]. split; [reflexivity | repeat constructor; exact HP]. Qed.

Lemma extends_time_sleep (P : event -> Prop) d :
  P (EvSleep d) -> respects (extends P) (time_sleep d).
Proof. intros HP w. exists [EvSleep d]. split; [reflexivity | repeat constructor; exact HP]. Qed.

Lemma extends_remote (P : event -> Prop) r :
  P (EvRequest r) -> respects (extends P) (remote r).
Proof.
  intros HP w. unfold remote.
  destruct (execute r (env w)) as [e' [err|v]]; cbn;
    (exists [EvRequest r]; split; [reflexivity | repeat constructor; exact HP]).
Qed.

Lemma extends_cache_hit P k : respects (extends P) (cache_hit k).
Proof. intros w. reflexivity. Qed.

Lemma extends_cache_set P k v : respects (extends P) (cache_set k v).
Proof. intros w. exists []. split; [symmetry; apply app_nil_r | constructor]. Qed.

Lemma extends_cache_del P k : respects (extends P) (cache_del k).
Proof.
  intros w. unfold cache_del. destruct (gdriveids w !! k); cbn; [|reflexivity].
  exists []. split; [symmetry; apply app_nil_r | constructor].
Qed.

Lemma same_cache_emit ev : respects same_cache (emit ev).
Proof. intros w. reflexivity. Qed.

Lemma same_cache_time_sleep d : respects same_cache (time_sleep d).
Proof. intros w. reflexivity. Qed.

Lemma same_cache_remote r : respects same_cache (remote r).
Proof.
  intros w. unfold remote.
  destruct (execute r (env w)) as [e' [err|v]]; reflexivity.
Qed.

End Framework.

(** ** The executor: retries *)

Section ExecutorFacts.
Context {E : Type} `{Env E}.

Lemma backoff_range p g : 6 <= backoff p g <= 15.
Proof.
  unfold backoff.
  destruct (Z.eqb p g); simpl; [lia|].
  pose proof (Z.mod_pos_bound (p - g) 10 ltac:(lia)).
  destruct (Z.eqb_spec ((p - g) mod 10) 0); lia.
Qed.

Lemma backoff_value p g :
  backoff p g =
    5 + (if Z.eqb p g then 1
         else if Z.eqb ((p - g) mod 10) 0 then 10 else (p - g) mod 10).
Proof.
  unfold backoff. destruct (Z.eqb p g); simpl; [lia|].
  destruct (Z.eqb ((p - g) mod 10) 0); lia.
Qed.

(** The seconds slept before a retry that follows the error [e]. *)
Definition retry_delay (e : string) (w : world E) : Z :=
  if rate_limited e then backoff (getpid (env w)) (getpgrp (env w)) else 3.

(** The line printed before that sleep. *)
Definition retry_line (cmd : command) (e : string) (w : world E) : string :=
  if rate_limited e then
    "RETRYING " +:+ cmd_name cmd +:+ ": Rate Limit Exceeded (GID "
      +:+ pretty (getpgrp (env w)) +:+ ", PID " +:+ pretty (getpid (env w))
      +:+ ", WAIT " +:+ pretty (backoff (getpid (env w)) (getpgrp (env w)))
      +:+ " sec)"
  else "RETRYING " +:+ cmd_name cmd +:+ ": " +:+ e.

(** The world once the handler has printed and slept. *)
Definition waited (cmd : command) (e : string) (w : world E) : world E :=
  World (sleep (retry_delay e w) (env w)) (gdriveids w)
    (log w ++ [EvPrint (retry_line cmd e w); EvSleep (retry_delay e w)]).

Lemma wait_before_retry_run cmd e w :
  wait_before_retry cmd e w = (Ok tt, waited cmd e w).
Proof.
  unfold wait_before_retry, waited, retry_delay, retry_line.
  destruct (rate_limited e); unfold bind, print, emit, time_sleep, os_getpid, os_getpgrp; cbn; rewrite <- app_assoc; reflexivity.
Qed.

Lemma google_api_command_retry_step cmd retry fuel w e w1 :
  (retry < 10)%nat ->
  attempt (google_api_command fuel) cmd w = (Raise e, w1) ->
  google_api_command (S fuel) cmd retry w
  = google_api_command fuel cmd (S retry) (waited cmd e w1).
Proof.
  intros Hr Ha. cbn [google_api_command]. unfold try_except. rewrite Ha.
  unfold on_error. destruct (Nat.leb_spec 10 retry); [lia|].
  unfold bind. rewrite wait_before_retry_run. reflexivity.
Qed.

Lemma google_api_command_fatal_step cmd retry fuel w e w1 :
  (10 <= retry)%nat ->
  attempt (google_api_command fuel) cmd w = (Raise e, w1) ->
  google_api_command (S fuel) cmd retry w
  = (Exit 1, World (env w1) (gdriveids w1)
               (log w1 ++ [EvPrint ("ERROR: " +:+ e +:+ Py.nl)])).
Proof.
  intros Hr Ha. cbn [google_api_command]. unfold try_except. rewrite Ha.
  unfold on_error. destruct (Nat.leb_spec 10 retry); [|lia].
  reflexivity.
Qed.

Lemma google_api_command_success_step cmd retry fuel w v w1 :
  attempt (google_api_command fuel) cmd w = (Ok v, w1) ->
  google_api_command (S fuel) cmd retry w = (Ok v, w1).
Proof.
  intros Ha. cbn [google_api_command]. unfold try_except. rewrite Ha.
  reflexivity.
Qed.

(** C3.  A failed attempt below the retry ceiling: when the error text
    names a rate or quota limit the handler sleeps [backoff pid pgid]
    seconds, that is 5 plus 1 when the two ids are equal, else 5 plus
    [(pid - pgid) mod 10] with a zero residue replaced by 10, hence
    between 6 and 15 seconds; for any other error it sleeps 3 seconds; in
    both cases exactly one line is printed, one sleep is performed, and the
    same command is run again with the retry count incremented. *)
Theorem google_api_command_retry_policy
    (cmd : command) (retry fuel : nat) (w w1 : world E) (e : string) :
  (retry < 10)%nat ->
  attempt (google_api_command fuel) cmd w = (Raise e, w1) ->
  let p := getpid (env w1) in
  let g := getpgrp (env w1) in
  let d := retry_delay e w1 in
  (rate_limited e = true ->
     d = 5 + (if Z.eqb p g then 1
              else if Z.eqb ((p - g) mod 10) 0 then 10 else (p - g) mod 10)
     /\ 6 <= d <= 15)
  /\ (rate_limited e = false -> d = 3)
  /\ google_api_command (S fuel) cmd retry w
     = google_api_command fuel cmd (S retry)
         (World (sleep d (env w1)) (gdriveids w1)
            (log w1 ++ [EvPrint (retry_line cmd e w1); EvSleep d])).
Proof.
  intros Hr Ha p g d. subst p g d. unfold retry_delay.
  split; [|split].
  - intros ->. split; [apply backoff_value | apply backoff_range].
  - intros ->. reflexivity.
  - apply (google_api_command_retry_step _ _ _ _ _ _ Hr Ha).
Qed.

(** [keeps_failing cmd n fuel retry w w'] : from [w], at the retry count
    [retry], the next [n] attempts of [cmd] all raise, the handler waiting
    after each, and leave the world [w']; [fuel] is what is left after
    them. *)
Inductive keeps_failing (cmd : command)
  : nat -> nat -> nat -> world E -> world E -> Prop :=
| kf_nil fuel retry w : keeps_failing cmd O fuel retry w w
| kf_cons n fuel retry w e w1 w' :
    attempt (google_api_command (n + fuel)) cmd w = (Raise e, w1) ->
    keeps_failing cmd n fuel (S retry) (waited cmd e w1) w' ->
    keeps_failing cmd (S n) fuel retry w w'.

Lemma keeps_failing_run cmd n fuel retry w w' :
  keeps_failing cmd n fuel retry w w' ->
  (retry + n <= 10)%nat ->
  google_api_command (n + fuel) cmd retry w
  = google_api_command fuel cmd (retry + n) w'.
Proof.
  induction 1 as [fuel retry w | n fuel retry w e w1 w' Ha Hk IH]; intros Hle.
  - rewrite Nat.add_0_r. reflexivity.
  - cbn [Nat.add].
    rewrite (google_api_command_retry_step cmd retry _ w e w1); [|lia|exact Ha].
    rewrite IH by lia. f_equal. lia.
Qed.

(** C4.  A call that keeps failing is retried at most ten times: when the
    first [n <= 10] attempts raise and the next one succeeds, the call
    returns the result of that attempt; when the first ten attempts raise
    and the eleventh raises [e] too, the call prints the error and ends
    the process with status 1, sending nothing more. *)
Theorem google_api_command_retry_ceiling
    (cmd : command) (n fuel : nat) (w w' : world E) :
  keeps_failing cmd n (S fuel) 0 w w' ->
  (n <= 10)%nat ->
  (forall v w1,
     attempt (google_api_command fuel) cmd w' = (Ok v, w1) ->
     google_api_command (n + S fuel) cmd 0 w = (Ok v, w1))
  /\ (forall e w1,
        n = 10%nat ->
        attempt (google_api_command fuel) cmd w' = (Raise e, w1) ->
        google_api_command (n + S fuel) cmd 0 w
        = (Exit 1, World (env w1) (gdriveids w1)
                     (log w1 ++ [EvPrint ("ERROR: " +:+ e +:+ Py.nl)]))).
Proof.
  intros Hk Hn. split.
  - intros v w1 Ha. rewrite (keeps_failing_run _ _ _ _ _ _ Hk) by lia.
    apply google_api_command_success_step, Ha.
  - intros e w1 -> Ha. rewrite (keeps_failing_run _ _ _ _ _ _ Hk) by lia.
    apply google_api_command_fatal_step; [cbn; lia | exact Ha].
Qed.

(** An exception never leaves [google_api_command]. *)
Lemma google_api_command_noraise fuel cmd retry :
  noraise (google_api_command fuel cmd retry).
Proof.
  revert cmd retry. induction fuel as [|fuel IH]; intros cmd retry.
  - apply noraise_out_of_fuel.
  - cbn [google_api_command]. apply noraise_try. intros e. unfold on_error.
    apply noraise_if.
    + apply noraise_bind; [apply noraise_print | intros; apply noraise_exit].
    + apply noraise_bind; [|intros; apply IH].
      intros w e'. rewrite wait_before_retry_run. discriminate.
Qed.

(** What a command may send. *)
Definition may_send (cmd : command) (r : request) : Prop :=
  match cmd with
  | CmdList arg1 arg2 _ => exists tok, r = FilesList arg1 (fsel arg2) tok
  | CmdGet arg1 => r = FilesGet arg1
  | CmdRename arg1 arg2 => r = FilesUpdateName arg1 arg2
  | CmdCreate arg1 => r = FilesCreate arg1 None
  | CmdDelete arg1 => r = FilesDelete arg1
  | CmdMove arg1 arg2 =>
      r = FilesGet arg1 \/ exists old, r = FilesUpdateParents arg1 arg2 old
  | CmdUpload arg1 arg2 => r = FilesCreate arg1 (Some arg2)
  | CmdCreateSheet arg1 => r = SheetsCreate arg1
  | CmdFormatSheet arg1 arg2 => r = SheetsBatchUpdate arg1 arg2
  | CmdInitDrive arg1 => r = Build "drive" "v3" arg1
  | CmdInitSheet arg1 => r = Build "sheets" "v4" arg1
  | CmdOther _ => False
  end.

Section ExecutorRespects.
Context (R : world E -> world E -> Prop) `{!PreOrder R}.
Hypothesis R_print : forall l, respects R (print l).
Hypothesis R_sleep : forall d, respects R (time_sleep d).

Lemma wait_before_retry_respects cmd e : respects R (wait_before_retry cmd e).
Proof.
  unfold wait_before_retry. apply respects_if.
  - apply respects_bind; [exact _ | intros w; reflexivity |]. intros p.
    apply respects_bind; [exact _ | intros w; reflexivity |]. intros g.
    apply respects_bind; [exact _ | apply R_print | intros; apply R_sleep].
  - apply respects_bind; [exact _ | apply R_print | intros; apply R_sleep].
Qed.

Lemma google_api_command_respects fuel cmd retry :
  (forall r, may_send cmd r -> respects R (remote r)) ->
  respects R (google_api_command fuel cmd retry).
Proof.
  revert cmd retry. induction fuel as [|fuel IH]; intros cmd retry Hr.
  - apply respects_out_of_fuel; exact _.
  - cbn [google_api_command]. apply respects_try; [exact _ | |].
    + destruct cmd; cbn [attempt];
        try (apply respects_bind;
             [exact _ | apply Hr; cbn; eauto
             | intros; apply respects_ret; exact _]).
      * apply respects_bind; [exact _ | apply Hr; cbn; eauto |]. intros res.
        destruct (r_files res) as [files|]; [|apply respects_ret; exact _].
        destruct (r_nextPageToken res) as [tok|]; [|apply respects_ret; exact _].
        apply respects_bind; [exact _ | apply IH; exact Hr |].
        intros; apply respects_ret; exact _.
      * apply respects_bind; [exact _ | apply Hr; cbn; eauto |]. intros res.
        destruct (r_parents res) as [old|]; [|apply respects_raise; exact _].
        apply respects_bind; [exact _ | apply Hr; cbn; eauto |].
        intros; apply respects_ret; exact _.
      * apply respects_ret; exact _.
    + intros e. unfold on_error. apply respects_if.
      * apply respects_bind; [exact _ | apply R_print |].
        intros; apply respects_exit; exact _.
      * apply respects_bind; [exact _ | apply wait_before_retry_respects |].
        intros; apply IH, Hr.
Qed.

End ExecutorRespects.

(** [google_api_command] leaves the cache alone. *)
Lemma google_api_command_same_cache fuel cmd retry :
  respects same_cache (google_api_command fuel cmd retry).
Proof.
  apply google_api_command_respects; [exact _ | | |].
  - intros; apply same_cache_emit.
  - intros; apply same_cache_time_sleep.
  - intros; apply same_cache_remote.
Qed.

End ExecutorFacts.

(** ** The executor: pagination *)

Section Pagination.
Context {E : Type} `{Env E}.

(** The [pageToken] a [list] sends for its [arg3]. *)
Definition page_token (arg3 : option string) : option string :=
  if Py.truthy_opt arg3 then arg3 else None.

(** [page_chain q sel tok e pages e'] : asked for [q] with the cursor
    [tok], the service in state [e] answers with a page, each page but
    the last carrying the cursor of the next; [pages] lists the cursor
    sent and the [files] received, page by page, and [e'] is the state of
    the service after the last one.  The last page is the first without a
    [nextPageToken], or the first without a [files] field, which counts
    for no file. *)
Inductive page_chain (q : query) (sel : string)
  : option string -> E -> list (option string * list item) -> E -> Prop :=
| chain_last tok e e' r files :
    execute (FilesList q sel tok) e = (e', inr r) ->
    r_files r = Some files ->
    r_nextPageToken r = None ->
    page_chain q sel tok e [(tok, files)] e'
| chain_next tok e e1 e' r files next rest :
    execute (FilesList q sel tok) e = (e1, inr r) ->
    r_files r = Some files ->
    r_nextPageToken r = Some next ->
    page_chain q sel (page_token (Some next)) e1 rest e' ->
    page_chain q sel tok e ((tok, files) :: rest) e'
| chain_stop tok e e' r :
    execute (FilesList q sel tok) e = (e', inr r) ->
    r_files r = None ->
    page_chain q sel tok e [(tok, [])] e'.

Definition list_requests (q : query) (sel : string)
    (pages : list (option string * list item)) : list event :=
  map (fun p => EvRequest (FilesList q sel (fst p))) pages.

Lemma google_api_command_list_chain q arg2 pages :
  forall arg3 retry fuel (w : world E) e',
  page_chain q (fsel arg2) (page_token arg3) (env w) pages e' ->
  (length pages <= fuel)%nat ->
  google_api_command fuel (CmdList q arg2 arg3) retry w
  = (Ok (VFiles (concat (map snd pages))),
     World e' (gdriveids w) (log w ++ list_requests q (fsel arg2) pages)).
Proof.
  induction pages as [|[tok files] rest IH]; intros arg3 retry fuel w e' Hc Hf.
  - inversion Hc.
  - destruct fuel as [|fuel]; [cbn in Hf; lia|].
    cbn [google_api_command attempt]. unfold try_except, bind, remote.
    fold (page_token arg3).
    inversion Hc as [tok' e0 e0' r files' Hx Hfiles Hnext
                    |tok' e0 e1 e0' r files' next rest' Hx Hfiles Hnext Hrest
                    |tok' e0 e0' r Hx Hfiles];
      subst; rewrite Hx; cbn; rewrite Hfiles; [rewrite Hnext..|]; cbn.
    + rewrite app_nil_r. reflexivity.
    + specialize (IH (Some next) O fuel
                    (World e1 (gdriveids w)
                       (log w ++ [EvRequest (FilesList q (fsel arg2) (page_token arg3))]))
                    e' Hrest ltac:(cbn in Hf; lia)).
      rewrite IH. cbn. rewrite <- app_assoc. reflexivity.
    + reflexivity.
Qed.

Lemma google_api_command_list_no_files q arg2 arg3 retry fuel (w : world E) e1 r :
  execute (FilesList q (fsel arg2) (page_token arg3)) (env w) = (e1, inr r) ->
  r_files r = None ->
  google_api_command (S fuel) (CmdList q arg2 arg3) retry w
  = (Ok (VFiles []),
     World e1 (gdriveids w)
       (log w ++ [EvRequest (FilesList q (fsel arg2) (page_token arg3))])).
Proof.
  intros Hx Hf. cbn [google_api_command attempt].
  unfold try_except, bind, remote. fold (page_token arg3).
  rewrite Hx; cbn. rewrite Hf. reflexivity.
Qed.

(** C2.  A [list] returns the concatenation, in page order, of the
    [files] of every page of the chain that starts at its cursor and
    follows each [nextPageToken] until a page has none, sending one
    request per page; and a first response without a [files] field makes
    it return the empty list, not an error. *)
Theorem google_api_command_list_aggregates
    (q : query) (arg2 arg3 : option string) (retry fuel : nat) (w : world E) :
  (forall pages e',
     page_chain q (fsel arg2) (page_token arg3) (env w) pages e' ->
     (length pages <= fuel)%nat ->
     google_api_command fuel (CmdList q arg2 arg3) retry w
     = (Ok (VFiles (concat (map snd pages))),
        World e' (gdriveids w) (log w ++ list_requests q (fsel arg2) pages)))
  /\ (forall e1 r,
        execute (FilesList q (fsel arg2) (page_token arg3)) (env w)
          = (e1, inr r) ->
        r_files r = None ->
        google_api_command (S fuel) (CmdList q arg2 arg3) retry w
        = (Ok (VFiles []),
           World e1 (gdriveids w)
             (log w ++ [EvRequest (FilesList q (fsel arg2) (page_token arg3))]))).
Proof.
  split.
  - intros pages e'. apply google_api_command_list_chain.
  - intros e1 r. apply google_api_command_list_no_files.
Qed.

End Pagination.

(** ** The guard *)

Section GuardFacts.
Context {E : Type} `{Env E}.

(** [k] failed attempts, each followed by its second of sleep. *)
Definition failed_attempts (k : nat) : list event :=
  concat (replicate k [EvFlock lockfile false; EvSleep 1]).

(** [lock_fails k e e']: from the state [e] of the environment, [k]
    attempts on the lock file in a row are refused by [flock], a second
    of [sleep] follows each, and the environment is left in [e']. *)
Inductive lock_fails : nat -> E -> E -> Prop :=
| lock_fails_O (e : E) : lock_fails O e e
| lock_fails_S (k : nat) (e e1 e' : E) :
    flock lockfile e = (e1, false) ->
    lock_fails k (sleep 1 e1) e' ->
    lock_fails (S k) e e'.

(** The loop of [mutex_lock], against the answers of [flock]: it stops
    at the first attempt [flock] grants, or after [n] refusals. *)
Lemma lock_loop_run n : forall w : world E,
  exists (k : nat) (e1 : E),
    lock_fails k (env w) e1
    /\ ((k < n)%nat
        /\ (exists e2 : E,
              flock lockfile e1 = (e2, true)
              /\ lock_loop n false w
                 = (Ok true,
                    World e2 (gdriveids w)
                      (log w ++ failed_attempts k ++ [EvFlock lockfile true])))
        \/
        k = n
        /\ lock_loop n false w
           = (Ok false,
              World e1 (gdriveids w) (log w ++ failed_attempts k))).
Proof.
  induction n as [|n IH]; intros w.
  - exists O, (env w). split; [constructor|]. right. split; [reflexivity|].
    cbn. rewrite app_nil_r. destruct w; reflexivity.
  - cbn [lock_loop]. unfold bind, lock_attempt.
    destruct (flock lockfile (env w)) as [e1 [|]] eqn:Hf.
    + exists O, (env w). split; [constructor|]. left. split; [lia|].
      exists e1. split; [exact Hf|]. destruct n; reflexivity.
    + cbn.
      set (w1 := World (sleep 1 e1) (gdriveids w)
                   ((log w ++ [EvFlock lockfile false]) ++ [EvSleep 1])).
      destruct (IH w1) as (k & e2 & Hfails & Hrun).
      exists (S k), e2. split; [econstructor; [exact Hf | exact Hfails]|].
      assert (Hl : forall tl, log w1 ++ failed_attempts k ++ tl
                   = log w ++ failed_attempts (S k) ++ tl).
      { intros tl. subst w1. cbn. rewrite <- !app_assoc. reflexivity. }
      destruct Hrun as [(Hk & e3 & Hf3 & Hrun) | (-> & Hrun)].
      * left. split; [lia|]. exists e3. split; [exact Hf3|].
        rewrite Hrun, Hl. reflexivity.
      * right. split; [reflexivity|]. rewrite Hrun.
        specialize (Hl []). rewrite !app_nil_r in Hl. rewrite Hl.
        reflexivity.
Qed.

(** C9.  [mutex_lock(wait)] makes at most [wait] non-blocking attempts on
    [/tmp/googleapi.lock], sleeps one second after each one [flock]
    refuses, and ends in one of two ways.  Either, after [k < wait]
    refusals, [flock] grants the lock: the handle is returned, in the
    very state of the environment in which [flock] granted it.  Or
    [flock] has refused all [wait] attempts: the failure is printed and
    the process exits with status 1.  The handle is thus never returned
    without [flock] having granted the lock, and the process never exits
    while an attempt is left. *)
Theorem mutex_lock_bounded (wait : Z) (w : world E) :
  exists (k : nat) (e1 : E),
    (k <= Z.to_nat wait)%nat
    /\ lock_fails k (env w) e1
    /\ ((k < Z.to_nat wait)%nat
        /\ (exists e2 : E,
              flock lockfile e1 = (e2, true)
              /\ mutex_lock wait w
                 = (Ok lockfile,
                    World e2 (gdriveids w)
                      (log w ++ failed_attempts k ++ [EvFlock lockfile true])))
        \/
        k = Z.to_nat wait
        /\ mutex_lock wait w
           = (Exit 1,
              World e1 (gdriveids w)
                (log w ++ failed_attempts k
                   ++ [EvPrint "googleapi could not get a lock"]))).
Proof.
  unfold mutex_lock, bind.
  destruct (lock_loop_run (Z.to_nat wait) w) as (k & e1 & Hfails & Hrun).
  exists k, e1.
  destruct Hrun as [(Hk & e2 & Hf & Hrun) | (-> & Hrun)]; rewrite Hrun.
  - split; [lia|]. split; [exact Hfails|]. left. split; [exact Hk|].
    exists e2. split; [exact Hf | reflexivity].
  - split; [reflexivity|]. split; [exact Hfails|]. right.
    split; [reflexivity|]. cbn. rewrite <- app_assoc. reflexivity.
Qed.

End GuardFacts.

(** ** The resolver: what a look-up may do *)

(** The events of a pure look-up: listings, and the lines and sleeps of
    their retries; no create, delete, rename or move, and no lock. *)
Definition lists_only (ev : event) : Prop :=
  match ev with
  | EvRequest (FilesList _ _ _) | EvPrint _ | EvSleep _ => True
  | _ => False
  end.

(** The prefix reached after the segments [l], starting from [cpath]. *)
Definition cpath_after (cpath : string) (l : list string) : string :=
  foldl next_cpath cpath l.

Section ResolverFacts.
Context {E : Type} `{Env E}.
Variable fuel : nat.

Lemma list_lists_only q arg2 arg3 retry :
  respects (extends lists_only) (google_api_command fuel (CmdList q arg2 arg3) retry).
Proof.
  apply google_api_command_respects; [exact _ | | |].
  - intros; apply extends_emit; exact I.
  - intros; apply extends_time_sleep; exact I.
  - intros r [tok ->]. apply extends_remote. exact I.
Qed.

Lemma mkdir_walk_readonly_lists_only subdirs : forall pid cpath,
  respects (extends lists_only) (mkdir_walk fuel true subdirs pid cpath).
Proof.
  induction subdirs as [|subdir rest IH]; intros pid cpath; cbn [mkdir_walk].
  - apply respects_ret; exact _.
  - apply respects_bind; [exact _ | apply extends_cache_hit |].
    intros [id|]; [apply IH|].
    apply respects_bind; [exact _ | apply list_lists_only |]. intros out.
    destruct (first_id (files_of out)) as [id|].
    + apply respects_bind; [exact _ | apply extends_cache_set | intros; apply IH].
    + apply respects_ret; exact _.
Qed.

Lemma gdrive_mkdir_readonly_lists_only dir :
  respects (extends lists_only) (gdrive_mkdir fuel dir true).
Proof.
  unfold gdrive_mkdir. apply respects_if; [apply respects_ret; exact _|].
  apply respects_bind; [exact _ | apply respects_ret; exact _ |]. intros lock.
  apply respects_bind; [exact _ | apply mkdir_walk_readonly_lists_only |].
  intros [v|pid]; [apply respects_ret; exact _|].
  apply respects_bind; [exact _ | apply respects_ret; exact _ |].
  intros; apply respects_ret; exact _.
Qed.

Lemma gdrive_get_lists_only folder name :
  respects (extends lists_only) (gdrive_get fuel folder name).
Proof.
  unfold gdrive_get.
  apply respects_bind; [exact _ | apply list_lists_only |].
  intros; apply respects_ret; exact _.
Qed.

Lemma gdrive_find_lists_only gpath :
  respects (extends lists_only) (gdrive_find fuel gpath).
Proof.
  unfold gdrive_find.
  apply respects_bind; [exact _ | apply extends_cache_hit |].
  intros [id|]; [apply respects_ret; exact _|].
  apply respects_bind; [exact _ | apply extends_cache_hit |]. intros hit.
  apply respects_bind; [exact _ | |].
  { destruct hit; [apply respects_ret; exact _|].
    apply gdrive_mkdir_readonly_lists_only. }
  intros pid. apply respects_if; [apply respects_ret; exact _|].
  apply respects_if.
  - apply respects_bind; [exact _ | apply extends_cache_set |].
    intros; apply respects_ret; exact _.
  - apply respects_bind; [exact _ | apply gdrive_get_lists_only |]. intros out.
    destruct (first_id out).
    + apply respects_bind; [exact _ | apply extends_cache_set |].
      intros; apply respects_ret; exact _.
    + apply respects_ret; exact _.
Qed.

(** *** No exception from a look-up *)

Lemma mkdir_walk_readonly_noraise subdirs : forall pid cpath,
  noraise (mkdir_walk fuel true subdirs pid cpath).
Proof.
  induction subdirs as [|subdir rest IH]; intros pid cpath; cbn [mkdir_walk].
  - apply noraise_ret.
  - apply noraise_bind; [apply noraise_cache_hit|].
    intros [id|]; [apply IH|].
    apply noraise_bind; [apply google_api_command_noraise|]. intros out.
    destruct (first_id (files_of out)) as [id|].
    + apply noraise_bind; [apply noraise_cache_set | intros; apply IH].
    + apply noraise_ret.
Qed.

Lemma gdrive_mkdir_readonly_noraise dir : noraise (gdrive_mkdir fuel dir true).
Proof.
  unfold gdrive_mkdir. apply noraise_if; [apply noraise_ret|].
  apply noraise_bind; [apply noraise_ret|]. intros lock.
  apply noraise_bind; [apply mkdir_walk_readonly_noraise|].
  intros [v|pid]; [apply noraise_ret|].
  apply noraise_bind; [apply noraise_ret | intros; apply noraise_ret].
Qed.

Lemma gdrive_get_noraise folder name : noraise (gdrive_get fuel folder name).
Proof.
  unfold gdrive_get.
  apply noraise_bind; [apply google_api_command_noraise | intros; apply noraise_ret].
Qed.

Lemma gdrive_find_noraise gpath : noraise (gdrive_find fuel gpath).
Proof.
  unfold gdrive_find.
  apply noraise_bind; [apply noraise_cache_hit|].
  intros [id|]; [apply noraise_ret|].
  apply noraise_bind; [apply noraise_cache_hit|]. intros hit.
  apply noraise_bind.
  { destruct hit; [apply noraise_ret | apply gdrive_mkdir_readonly_noraise]. }
  intros pid. apply noraise_if; [apply noraise_ret|].
  apply noraise_if.
  - apply noraise_bind; [apply noraise_cache_set | intros; apply noraise_ret].
  - apply noraise_bind; [apply gdrive_get_noraise|]. intros out.
    destruct (first_id out).
    + apply noraise_bind; [apply noraise_cache_set | intros; apply noraise_ret].
    + apply noraise_ret.
Qed.

(** *** The walk, segment by segment *)

Lemma mkdir_walk_app readonly l1 l2 : forall pid cpath (w : world E),
  mkdir_walk fuel readonly (l1 ++ l2) pid cpath w
  = match mkdir_walk fuel readonly l1 pid cpath w with
    | (Ok (Finished pid'), w1) =>
        mkdir_walk fuel readonly l2 pid' (cpath_after cpath l1) w1
    | r => r
    end.
Proof.
  induction l1 as [|s l1 IH]; intros pid cpath w; [reflexivity|].
  cbn [app mkdir_walk cpath_after foldl].
  fold (cpath_after (next_cpath cpath s) l1).
  unfold bind, cache_hit, cache_set.
  destruct (cached w (next_cpath cpath s)) as [id|]; [apply IH|].
  destruct (google_api_command fuel _ 0 w) as [[out| | |] w1]; try reflexivity.
  destruct (first_id (files_of out)) as [id|]; [apply IH|].
  destruct readonly; [reflexivity|].
  destruct (google_api_command fuel _ 0 w1) as [[file| | |] w2]; try reflexivity.
  apply IH.
Qed.

(** A read-only walk stops with [''] at a segment that is neither cached
    nor listed. *)
Lemma mkdir_walk_readonly_missing subdir rest pid cpath (w : world E) out w1 :
  cached w (next_cpath cpath subdir) = None ->
  google_api_command fuel (CmdList (QFolderNamed fmime pid subdir) None None) 0 w
    = (Ok out, w1) ->
  first_id (files_of out) = None ->
  mkdir_walk fuel true (subdir :: rest) pid cpath w = (Ok (Returned ""), w1).
Proof.
  intros Hc Hl Hf. cbn [mkdir_walk]. unfold bind at 1. cbn [cache_hit].
  rewrite Hc. unfold bind at 1. rewrite Hl, Hf. reflexivity.
Qed.

(** C6.  A read-only [gdrive_mkdir] only ever sends listings (with the
    lines and sleeps of their retries): no create request, and no lock
    either; and when, after the segments [walked], the next segment is
    neither cached nor returned by its listing, the call returns [''],
    having sent nothing after that listing. *)
Theorem gdrive_mkdir_readonly_never_creates (dir : string) (w : world E) :
  extends lists_only w (snd (gdrive_mkdir fuel dir true w))
  /\ (forall walked subdir rest pid w1 out w2,
        Py.truthy dir = true ->
        Py.split Py.slash dir = walked ++ subdir :: rest ->
        mkdir_walk fuel true walked "root" "" w = (Ok (Finished pid), w1) ->
        cached w1 (next_cpath (cpath_after "" walked) subdir) = None ->
        google_api_command fuel
          (CmdList (QFolderNamed fmime pid subdir) None None) 0 w1
          = (Ok out, w2) ->
        first_id (files_of out) = None ->
        gdrive_mkdir fuel dir true w = (Ok "", w2)).
Proof.
  split; [apply gdrive_mkdir_readonly_lists_only|].
  intros walked subdir rest pid w1 out w2 Hd Hs Hw Hc Hl Hf.
  unfold gdrive_mkdir. rewrite Hd. cbn [negb].
  unfold bind at 1. cbn [ret]. unfold bind at 1.
  rewrite Hs, mkdir_walk_app, Hw.
  rewrite (mkdir_walk_readonly_missing _ _ _ _ _ _ _ Hc Hl Hf). reflexivity.
Qed.

(** The directory part [gdrive_find] resolves. *)
Definition find_dir (gpath : string) : string :=
  let dir := Py.dirname gpath in
  if String.eqb dir "." || String.eqb dir "/" then "" else dir.

(** [find_parent gpath w pid w1] : from [w], the parent of [gpath]
    resolves to [pid], from the cache or by a read-only walk. *)
Definition find_parent (gpath : string) (w : world E) (pid : string)
    (w1 : world E) : Prop :=
  (cached w (find_dir gpath) = Some pid /\ w1 = w)
  \/ (cached w (find_dir gpath) = None
      /\ gdrive_mkdir fuel (find_dir gpath) true w = (Ok pid, w1)).

Lemma gdrive_find_unfold gpath (w : world E) pid w1 :
  cached w gpath = None ->
  find_parent gpath w pid w1 ->
  gdrive_find fuel gpath w
  = (if negb (Py.truthy pid) then ret ""
     else if negb (Py.truthy (Py.basename gpath))
             || String.eqb (Py.basename gpath) "."
     then cache_set gpath pid ;;; ret pid
     else out <- gdrive_get fuel pid (Py.basename gpath) ;;
          match first_id out with
          | Some id => cache_set gpath id ;;; ret id
          | None => ret ""
          end) w1.
Proof.
  intros Hc Hp. unfold gdrive_find. unfold bind at 1. cbn [cache_hit]. rewrite Hc.
  unfold bind at 1. cbn [cache_hit]. fold (find_dir gpath).
  destruct Hp as [[Hd ->] | [Hd Hm]]; rewrite Hd.
  - unfold bind at 1. reflexivity.
  - unfold bind at 1. rewrite Hm. reflexivity.
Qed.

Lemma gdrive_find_found_cached gpath (w : world E) id w' :
  gdrive_find fuel gpath w = (Ok id, w') ->
  Py.truthy id = true ->
  gdriveids w' !! gpath = Some id.
Proof.
  unfold gdrive_find. unfold bind at 1. cbn [cache_hit].
  destruct (cached w gpath) as [c|] eqn:Hc.
  { intros [= <- <-] _. unfold cached in Hc.
    destruct (gdriveids w !! gpath) as [v|]; [|discriminate].
    destruct (Py.truthy v); congruence. }
  unfold bind at 1. cbn [cache_hit]. unfold bind at 1.
  destruct (match cached w _ with Some i => ret i | None => _ end w)
    as [[pid| | |] w1]; try discriminate.
  destruct (Py.truthy pid) eqn:Hpid; cbn [negb].
  2:{ intros [= <- <-]. discriminate. }
  destruct (negb _ || _).
  - intros [= <- <-] _. cbn. apply lookup_insert_eq.
  - unfold bind at 1.
    destruct (gdrive_get fuel pid _ w1) as [[out| | |] w2]; try discriminate.
    destruct (first_id out) as [i|].
    + intros [= <- <-] _. cbn. apply lookup_insert_eq.
    + intros [= <- <-]. discriminate.
Qed.

(** C5.  [gdrive_find] never raises; when the read-only walk of the
    parent chain returns [''] it returns ['']; when the parent resolves
    and the listing of the leaf under it has no first file with an [id]
    it returns ['']; and a truthy result is the id now cached for the
    path. *)
Theorem gdrive_find_not_found_is_empty (gpath : string) (w : world E) :
  (forall e, fst (gdrive_find fuel gpath w) <> Raise e)
  /\ (forall w1,
        cached w gpath = None ->
        cached w (find_dir gpath) = None ->
        gdrive_mkdir fuel (find_dir gpath) true w = (Ok "", w1) ->
        gdrive_find fuel gpath w = (Ok "", w1))
  /\ (forall pid w1 out w2,
        cached w gpath = None ->
        find_parent gpath w pid w1 ->
        Py.truthy pid = true ->
        Py.truthy (Py.basename gpath) = true ->
        Py.basename gpath <> "." ->
        gdrive_get fuel pid (Py.basename gpath) w1 = (Ok out, w2) ->
        first_id out = None ->
        gdrive_find fuel gpath w = (Ok "", w2))
  /\ (forall id w',
        gdrive_find fuel gpath w = (Ok id, w') ->
        Py.truthy id = true ->
        gdriveids w' !! gpath = Some id).
Proof.
  split; [apply gdrive_find_noraise|]. split; [|split].
  - intros w1 Hc Hd Hm.
    rewrite (gdrive_find_unfold gpath w "" w1 Hc); [reflexivity|].
    right. auto.
  - intros pid w1 out w2 Hc Hp Hpid Hfile Hdot Hget Hout.
    rewrite (gdrive_find_unfold gpath w pid w1 Hc Hp).
    rewrite Hpid, Hfile. cbn [negb orb].
    destruct (String.eqb_spec (Py.basename gpath) "."); [contradiction|].
    unfold bind. rewrite Hget, Hout. reflexivity.
  - apply gdrive_find_found_cached.
Qed.

End ResolverFacts.

(** ** The operations: listing and deleting *)

Section OperationFacts.
Context {E : Type} `{Env E}.
Variable fuel : nat.

Section Loops.
Context (R : world E -> world E -> Prop) `{!PreOrder R}.

Lemma item_get_respects it k : respects R (item_get it k).
Proof.
  unfold item_get. destruct (it !! k);
    [apply respects_ret | apply respects_raise]; exact _.
Qed.

Lemma for_each_respects {A} (l : list A) (body : A -> M E unit) :
  (forall x, respects R (body x)) -> respects R (for_each l body).
Proof.
  intros Hb. induction l as [|x l IH]; cbn [for_each].
  - apply respects_ret; exact _.
  - apply respects_bind; [exact _ | apply Hb | intros; apply IH].
Qed.

Lemma with_keys_respects {K} (f : item -> M E K) (l : list item) :
  (forall x, respects R (f x)) -> respects R (with_keys f l).
Proof.
  intros Hf. induction l as [|x l IH]; cbn [with_keys].
  - apply respects_ret; exact _.
  - apply respects_bind; [exact _ | apply Hf |]. intros k.
    apply respects_bind; [exact _ | apply IH |].
    intros; apply respects_ret; exact _.
Qed.

Lemma foldl_respects {A B} (f : M E A -> B -> M E A) (l : list B) :
  (forall acc x, respects R acc -> respects R (f acc x)) ->
  forall acc, respects R acc -> respects R (foldl f acc l).
Proof.
  intros Hf. induction l as [|x l IH]; intros acc Hacc; cbn [foldl].
  - exact Hacc.
  - apply IH, Hf, Hacc.
Qed.

End Loops.

Lemma list_branch_lists_only gid :
  respects (extends lists_only) (list_branch fuel gid).
Proof.
  unfold list_branch.
  apply respects_bind; [exact _ | apply list_lists_only |]. intros v.
  apply respects_bind; [exact _ | apply extends_emit; exact I |]. intros _.
  apply respects_bind; [exact _ | |].
  { apply with_keys_respects; [exact _|]. intros k.
    apply respects_bind; [exact _ | apply item_get_respects; exact _ |]. intros m.
    apply respects_bind; [exact _ | apply item_get_respects; exact _ |]. intros n.
    apply respects_bind; [exact _ | apply item_get_respects; exact _ |]. intros c.
    apply respects_ret; exact _. }
  intros keyed. apply respects_bind; [exact _ | |].
  { apply foldl_respects; [|apply respects_ret; exact _].
    intros acc file Hacc.
    apply respects_bind; [exact _ | exact Hacc |]. intros [fcnt dcnt].
    apply respects_bind; [exact _ | apply item_get_respects; exact _ |]. intros ct.
    apply respects_bind; [exact _ | apply item_get_respects; exact _ |]. intros mt.
    apply respects_bind; [exact _ | apply item_get_respects; exact _ |]. intros nm.
    apply respects_if;
      (apply respects_bind; [exact _ | apply extends_emit; exact I |];
       intros; apply respects_ret; exact _). }
  intros [fcnt dcnt]. apply extends_emit; exact I.
Qed.

Lemma files_branch_lists_only cmd gid :
  String.eqb cmd "gclear" = false ->
  respects (extends lists_only) (files_branch fuel cmd gid).
Proof.
  intros Hcmd. unfold files_branch. rewrite Hcmd.
  apply respects_bind; [exact _ | apply list_lists_only |]. intros v.
  apply respects_bind; [exact _ | apply extends_emit; exact I |]. intros _.
  apply respects_bind; [exact _ | |].
  { apply with_keys_respects; [exact _|]. intros k.
    apply item_get_respects; exact _. }
  intros keyed. apply respects_bind; [exact _ | |].
  { apply for_each_respects; [exact _|]. intros file.
    apply respects_bind; [exact _ | apply item_get_respects; exact _ |]. intros ct.
    apply respects_bind; [exact _ | apply item_get_respects; exact _ |]. intros nm.
    apply respects_bind; [exact _ | apply extends_emit; exact I |].
    intros; apply respects_ret; exact _. }
  intros _. apply extends_emit; exact I.
Qed.

Lemma gdrive_command_simple_lists_only cmd gpath :
  cmd <> "delete" ->
  respects (extends lists_only) (gdrive_command_simple fuel cmd gpath).
Proof.
  intros Hcmd. unfold gdrive_command_simple.
  apply respects_bind; [exact _ | |].
  { unfold disallow. apply respects_if; [|apply respects_ret; exact _].
    apply respects_bind; [exact _ | apply extends_emit; exact I |].
    intros; apply respects_exit; exact _. }
  intros _. apply respects_bind; [exact _ | apply gdrive_find_lists_only |].
  intros gid. apply respects_if.
  { apply respects_bind; [exact _ | apply extends_emit; exact I |].
    intros; apply respects_ret; exact _. }
  apply respects_bind; [exact _ | | intros; apply respects_ret; exact _].
  apply respects_if; [apply extends_emit; exact I|].
  apply respects_if; [apply extends_emit; exact I|].
  destruct (String.eqb_spec cmd "delete") as [->|_]; [contradiction|].
  apply respects_if; [apply list_branch_lists_only|].
  destruct (String.eqb_spec cmd "files") as [->|_];
    [apply files_branch_lists_only; reflexivity|].
  destruct (String.eqb_spec cmd "clear") as [->|_];
    [apply files_branch_lists_only; reflexivity|].
  apply respects_ret; exact _.
Qed.

(** C10.  [gdrive_command_simple('clear', gpath)] sends nothing but
    listings, hence no delete, and so does ['files']; the delete of their
    branch is behind [cmd == 'gclear'], and for ['gclear'] the call prints
    the refusal and exits with status 1 before any request is sent. *)
Theorem gdrive_command_simple_clear_never_deletes (gpath : string) (w : world E) :
  extends lists_only w (snd (gdrive_command_simple fuel "clear" gpath w))
  /\ extends lists_only w (snd (gdrive_command_simple fuel "files" gpath w))
  /\ gdrive_command_simple fuel "gclear" gpath w
     = (Exit 1,
        World (env w) (gdriveids w)
          (log w ++ [EvPrint
             "You do not have permission to perform this function: gclear"])).
Proof.
  split; [|split].
  - apply gdrive_command_simple_lists_only. discriminate.
  - apply gdrive_command_simple_lists_only. discriminate.
  - reflexivity.
Qed.

(** *** [gdrive_delete] *)

Lemma gdrive_get_same_cache folder name :
  respects same_cache (gdrive_get fuel folder name).
Proof.
  unfold gdrive_get.
  apply respects_bind; [exact _ | apply google_api_command_same_cache |].
  intros; apply respects_ret; exact _.
Qed.

Lemma delete_loop_same_cache (items : list item) :
  respects same_cache
    (for_each items (fun it =>
       nm <- item_get it "name" ;;
       id <- item_get it "id" ;;
       print ("deleting duplicate - " +:+ nm +:+ " (" +:+ id +:+ ")") ;;;
       id <- item_get it "id" ;;
       _ <- google_api_command fuel (CmdDelete id) O ;;
       ret tt)).
Proof.
  apply for_each_respects; [exact _|]. intros it.
  apply respects_bind; [exact _ | apply item_get_respects; exact _ |]. intros nm.
  apply respects_bind; [exact _ | apply item_get_respects; exact _ |]. intros id.
  apply respects_bind; [exact _ | apply same_cache_emit |]. intros _.
  apply respects_bind; [exact _ | apply item_get_respects; exact _ |]. intros id'.
  apply respects_bind; [exact _ | apply google_api_command_same_cache |].
  intros; apply respects_ret; exact _.
Qed.

(** With nothing cached for [folder/name], [gdrive_delete] cannot return:
    if its listing and deletions go through, [del gdriveids[gpath]]
    raises the [KeyError]. *)
Lemma gdrive_delete_uncached_never_returns folder name (w : world E) :
  gdriveids w !! Py.join folder name = None ->
  fst (gdrive_delete fuel folder name w) <> Ok tt.
Proof.
  intros Hc. unfold gdrive_delete. unfold bind at 1.
  pose proof (gdrive_get_same_cache folder name w) as H1.
  destruct (gdrive_get fuel folder name w) as [[items| | |] w1]; try discriminate.
  unfold bind at 1.
  pose proof (delete_loop_same_cache items w1) as H2.
  destruct (for_each items _ w1) as [[[]| | |] w2]; try discriminate.
  unfold cache_del. cbn in H1, H2. unfold same_cache in H1, H2.
  rewrite H2, H1, Hc. discriminate.
Qed.

End OperationFacts.

(** ** The cache only grows under [gdrive_mkdir] *)

Section CacheFacts.
Context {E : Type} `{Env E}.
Variable fuel : nat.

Lemma same_cache_respects_grows {A} (m : M E A) :
  respects same_cache m -> respects cache_grows m.
Proof. intros Hm w. apply same_cache_grows, Hm. Qed.

Lemma lock_loop_same_cache n : forall b, respects same_cache (@lock_loop E _ n b).
Proof.
  induction n as [|n IH]; intros b; cbn [lock_loop].
  - apply respects_ret; exact _.
  - destruct b; [apply respects_ret; exact _|].
    apply respects_bind; [exact _ | | intros; apply IH].
    intros w. unfold lock_attempt.
    destruct (flock lockfile (env w)) as [e' [|]]; reflexivity.
Qed.

Lemma mutex_lock_same_cache wait : respects same_cache (@mutex_lock E _ wait).
Proof.
  unfold mutex_lock.
  apply respects_bind; [exact _ | apply lock_loop_same_cache |].
  intros [|]; [apply respects_ret; exact _|].
  apply respects_bind; [exact _ | apply same_cache_emit |].
  intros; apply respects_exit; exact _.
Qed.

Lemma mutex_unlock_same_cache fp : respects same_cache (@mutex_unlock E _ fp).
Proof.
  unfold mutex_unlock.
  apply respects_bind; [exact _ | apply same_cache_emit |]. intros _ w.
  destruct (os_remove lockfile (env w)) as [e' [err|]]; reflexivity.
Qed.

Lemma cache_set_grows k v : respects cache_grows (@cache_set E k v).
Proof.
  intros w key Hkey. cbn.
  destruct (decide (k = key)) as [->|Hne].
  - rewrite lookup_insert_eq. eauto.
  - rewrite lookup_insert_ne by exact Hne. exact Hkey.
Qed.

Lemma google_api_command_cache_grows cmd retry :
  respects cache_grows (google_api_command fuel cmd retry).
Proof. apply same_cache_respects_grows, google_api_command_same_cache. Qed.

Lemma mkdir_walk_cache_grows readonly subdirs : forall pid cpath,
  respects cache_grows (mkdir_walk fuel readonly subdirs pid cpath).
Proof.
  induction subdirs as [|subdir rest IH]; intros pid cpath; cbn [mkdir_walk].
  - apply respects_ret; exact _.
  - apply respects_bind; [exact _ | intros w; reflexivity |].
    intros [id|]; [apply IH|].
    apply respects_bind; [exact _ | apply google_api_command_cache_grows |].
    intros out. destruct (first_id (files_of out)) as [id|].
    + apply respects_bind; [exact _ | apply cache_set_grows | intros; apply IH].
    + apply respects_if; [apply respects_ret; exact _|].
      apply respects_bind; [exact _ | apply google_api_command_cache_grows |].
      intros file.
      apply respects_bind; [exact _ | apply cache_set_grows | intros; apply IH].
Qed.

Lemma gdrive_mkdir_cache_grows dir readonly :
  respects cache_grows (gdrive_mkdir fuel dir readonly).
Proof.
  unfold gdrive_mkdir. apply respects_if; [apply respects_ret; exact _|].
  apply respects_bind; [exact _ | |].
  { apply respects_if; [apply respects_ret; exact _|].
    apply same_cache_respects_grows, mutex_lock_same_cache. }
  intros lock.
  apply respects_bind; [exact _ | apply mkdir_walk_cache_grows |].
  intros [v|pid]; [apply respects_ret; exact _|].
  apply respects_bind; [exact _ | | intros; apply respects_ret; exact _].
  apply respects_if; [apply respects_ret; exact _|].
  apply same_cache_respects_grows, mutex_unlock_same_cache.
Qed.

End CacheFacts.

(** ** Running against the Drive *)

Module DriveFacts.
Import Drive.

(** The folders a walk creates for the segments [segs] under [parent],
    the first of them getting the id number [k]. *)
Fixpoint chain (parent : string) (k : nat) (segs : list string)
  : list gobject :=
  match segs with
  | [] => []
  | s :: r =>
      GObject (fresh_id k) s fmime [parent] false ""
        :: chain (fresh_id k) (S k) r
  end.

(** The id the walk ends on. *)
Fixpoint chain_end (parent : string) (k : nat) (segs : list string) : string :=
  match segs with
  | [] => parent
  | _ :: r => chain_end (fresh_id k) (S k) r
  end.

(** The cache once every prefix has been stored. *)
Fixpoint chain_cache (cpath : string) (k : nat) (segs : list string)
    (m : gmap string string) : gmap string string :=
  match segs with
  | [] => m
  | s :: r =>
      chain_cache (next_cpath cpath s) (S k) r
        (<[next_cpath cpath s := fresh_id k]> m)
  end.

(** The requests of the walk: for each segment a listing, then a create. *)
Fixpoint chain_log (parent : string) (k : nat) (segs : list string)
  : list event :=
  match segs with
  | [] => []
  | s :: r =>
      EvRequest (FilesList (QFolderNamed fmime parent s) (fsel None) None)
        :: EvRequest (FilesCreate (Metadata s (Some fmime) (Some [parent])) None)
        :: chain_log (fresh_id k) (S k) r
  end.

(** Every prefix of the walk is cached with the id of its folder. *)
Fixpoint chain_cached (m : gmap string string) (cpath : string) (k : nat)
    (segs : list string) : Prop :=
  match segs with
  | [] => True
  | s :: r =>
      m !! next_cpath cpath s = Some (fresh_id k)
      /\ chain_cached m (next_cpath cpath s) (S k) r
  end.

(** The cache keys of a walk: the prefix reached at each segment. *)
Fixpoint prefixes (cpath : string) (segs : list string) : list string :=
  match segs with
  | [] => []
  | s :: r => next_cpath cpath s :: prefixes (next_cpath cpath s) r
  end.

Lemma length_chain parent k segs : length (chain parent k segs) = length segs.
Proof.
  revert parent k. induction segs as [|s r IH]; intros; cbn; [|rewrite IH]; reflexivity.
Qed.

Lemma fresh_id_inj j k : fresh_id j = fresh_id k -> j = k.
Proof. unfold fresh_id. cbn. intros [= Hp]. exact (inj pretty _ _ Hp). Qed.

Lemma fresh_id_not_root j : "root" <> fresh_id j.
Proof. unfold fresh_id. cbn. discriminate. Qed.

Lemma fresh_id_truthy j : Py.truthy (fresh_id j) = true.
Proof. reflexivity. Qed.

(** *** Strings *)

Lemma length_append (a b : string) :
  String.length (a +:+ b) = (String.length a + String.length b)%nat.
Proof. induction a as [|c a IH]; [reflexivity | exact (f_equal S IH)]. Qed.

(** A segment as [split] yields them, when it is not empty. *)
Definition segment (s : string) : Prop :=
  s <> "" /\ Py.starts_slash s = false.

Lemma starts_slash_cons a x :
  a <> Py.slash -> Py.starts_slash (String a x) = false.
Proof.
  intros Ha. unfold Py.starts_slash. cbn [String.prefix].
  destruct (ascii_dec "/" a) as [Heq|]; [|reflexivity].
  destruct Ha. symmetry. exact Heq.
Qed.

Lemma split_no_leading_slash str :
  Forall (fun s => Py.starts_slash s = false) (Py.split Py.slash str).
Proof.
  induction str as [|a r IH]; cbn [Py.split].
  - repeat constructor.
  - destruct (Ascii.eqb_spec a Py.slash) as [->|Ha].
    + constructor; [reflexivity | exact IH].
    + destruct (Py.split Py.slash r) as [|x xs].
      * repeat constructor. apply starts_slash_cons, Ha.
      * inversion IH; subst. constructor; [|assumption].
        apply starts_slash_cons, Ha.
Qed.

Lemma split_segments str :
  Forall (fun s => s <> "") (Py.split Py.slash str) ->
  Forall segment (Py.split Py.slash str).
Proof.
  intros Hne. pose proof (split_no_leading_slash str) as Hs.
  rewrite Forall_forall in *. intros s Hin. split; auto.
Qed.

Lemma next_cpath_longer cpath s :
  segment s -> (String.length cpath < String.length (next_cpath cpath s))%nat.
Proof.
  intros [Hne Hs]. unfold next_cpath.
  assert (0 < String.length s)%nat by (destruct s; [congruence | cbn; lia]).
  destruct (Py.truthy cpath) eqn:Ht.
  - unfold Py.join. rewrite Hs.
    destruct (negb (Py.truthy cpath) || Py.ends_slash cpath);
      rewrite !length_append; cbn; lia.
  - destruct cpath; [cbn; lia | discriminate].
Qed.

(** *** One call, nothing scripted to fail *)

Lemma drive_list fuel q arg2 retry objs k b p g c lg :
  google_api_command (S fuel) (CmdList q arg2 None) retry
    (World (State objs k [] b p g) c lg)
  = (Ok (VFiles (map to_item (List.filter (matches q) objs))),
     World (State objs k [] b p g) c
       (lg ++ [EvRequest (FilesList q (fsel arg2) None)])).
Proof. reflexivity. Qed.

Lemma drive_create fuel md retry objs k b p g c lg :
  google_api_command (S fuel) (CmdCreate md) retry
    (World (State objs k [] b p g) c lg)
  = (Ok (VResponse (Response None None None (fresh_id k))),
     World (State (objs ++ [GObject (fresh_id k) (md_name md)
                              (default "application/octet-stream" (md_mimeType md))
                              (default ["root"] (md_parents md)) false ""])
              (S k) [] b p g) c
       (lg ++ [EvRequest (FilesCreate md None)])).
Proof. reflexivity. Qed.

Lemma drive_lock objs k fs p g c lg :
  mutex_lock 60 (World (State objs k fs 0 p g) c lg)
  = (Ok lockfile, World (State objs k fs 0 p g) c (lg ++ [EvFlock lockfile true])).
Proof. reflexivity. Qed.

Lemma drive_unlock st c lg :
  mutex_unlock lockfile (World st c lg)
  = (Ok tt, World st c (lg ++ [EvClose lockfile; EvRemove lockfile])).
Proof.
  unfold mutex_unlock, bind, emit. cbn. rewrite <- app_assoc. reflexivity.
Qed.

Lemma no_child_no_match parent s (objs : list gobject) :
  (forall o, o ∈ objs -> parent ∉ o_parents o) ->
  List.filter (matches (QFolderNamed fmime parent s)) objs = [].
Proof.
  intros Hn. induction objs as [|o objs IH]; [reflexivity|]. cbn [List.filter].
  assert (Hm : matches (QFolderNamed fmime parent s) o = false).
  { unfold matches, child_of.
    rewrite (bool_decide_eq_false_2 (parent ∈ o_parents o)).
    - rewrite andb_false_r. cbn. apply andb_false_r.
    - apply Hn. left. }
  rewrite Hm. apply IH. intros o' Ho'. apply Hn. right. exact Ho'.
Qed.

(** *** The first walk: every segment is created *)

Lemma mkdir_walk_creates fuel segs :
  forall parent cpath objs k b p g (c : gmap string string) lg,
  NoDup (prefixes cpath segs) ->
  (forall o, o ∈ objs -> parent ∉ o_parents o) ->
  (forall o j, o ∈ objs -> (k <= j)%nat -> fresh_id j ∉ o_parents o) ->
  (forall j, (k <= j)%nat -> parent <> fresh_id j) ->
  (forall key, key ∈ prefixes cpath segs -> c !! key = None) ->
  mkdir_walk (S fuel) false segs parent cpath (World (State objs k [] b p g) c lg)
  = (Ok (Finished (chain_end parent k segs)),
     World (State (objs ++ chain parent k segs) (k + length segs) [] b p g)
       (chain_cache cpath k segs c) (lg ++ chain_log parent k segs)).
Proof.
  induction segs as [|s r IH];
    intros parent cpath objs k b p g c lg Hnd Hpar Hfut Hne Hc.
  - cbn. rewrite !app_nil_r, Nat.add_0_r. reflexivity.
  - cbn [prefixes] in Hnd, Hc. apply NoDup_cons in Hnd as [Hnotin Hnd].
    cbn [mkdir_walk chain chain_end chain_cache chain_log].
    unfold bind at 1. unfold cache_hit, cached. cbn [gdriveids].
    rewrite (Hc _ ltac:(left)).
    unfold bind at 1. rewrite drive_list.
    rewrite (no_child_no_match _ _ _ Hpar). cbn [map files_of first_id].
    unfold bind at 1. rewrite drive_create.
    cbn [response_of r_id md_name md_mimeType md_parents default].
    unfold bind at 1. cbn [cache_set env gdriveids log].
    rewrite IH; [|exact Hnd| | | |].
    + rewrite <- !app_assoc. cbn [app length].
      rewrite Nat.add_succ_r. reflexivity.
    + intros o Ho. apply elem_of_app in Ho as [Ho|Ho].
      * apply Hfut; [exact Ho | lia].
      * apply list_elem_of_singleton in Ho. subst o. cbn.
        intros Hin. apply list_elem_of_singleton in Hin.
        apply (Hne k); [lia | congruence].
    + intros o j Ho Hj. apply elem_of_app in Ho as [Ho|Ho].
      * apply Hfut; [exact Ho | lia].
      * apply list_elem_of_singleton in Ho. subst o. cbn.
        intros Hin. apply list_elem_of_singleton in Hin.
        apply (Hne j); [lia | congruence].
    + intros j Hj Heq. apply fresh_id_inj in Heq. lia.
    + intros key Hk. rewrite lookup_insert_ne.
      * apply Hc. right. exact Hk.
      * intros <-. contradiction.
Qed.

(** *** The second walk: every prefix is cached *)

Lemma chain_cache_other cpath k segs (c : gmap string string) key :
  key ∉ prefixes cpath segs ->
  chain_cache cpath k segs c !! key = c !! key.
Proof.
  revert cpath k c. induction segs as [|s r IH]; intros cpath k c Hk;
    [reflexivity|].
  cbn [chain_cache prefixes] in *. apply not_elem_of_cons in Hk as [Hne Hk].
  rewrite IH by exact Hk. apply lookup_insert_ne. congruence.
Qed.

Lemma chain_cache_cached cpath k segs (c : gmap string string) :
  NoDup (prefixes cpath segs) ->
  chain_cached (chain_cache cpath k segs c) cpath k segs.
Proof.
  revert cpath k c. induction segs as [|s r IH]; intros cpath k c Hnd;
    [exact I|].
  cbn [prefixes] in Hnd. apply NoDup_cons in Hnd as [Hnotin Hnd].
  cbn [chain_cache chain_cached]. split; [|apply IH, Hnd].
  rewrite chain_cache_other by exact Hnotin. apply lookup_insert_eq.
Qed.

(** The prefixes of a path without empty segment are all different. *)
Lemma prefixes_longer cpath segs key :
  Forall segment segs ->
  key ∈ prefixes cpath segs ->
  (String.length cpath < String.length key)%nat.
Proof.
  revert cpath. induction segs as [|s r IH]; intros cpath Hsegs Hk.
  - apply elem_of_nil in Hk. destruct Hk.
  - inversion Hsegs as [|s' r' Hs Hr]; subst. cbn [prefixes] in Hk.
    pose proof (next_cpath_longer cpath s Hs) as Hlen.
    apply elem_of_cons in Hk as [->|Hk]; [exact Hlen|].
    specialize (IH _ Hr Hk). lia.
Qed.

Lemma segments_prefixes_nodup cpath segs :
  Forall segment segs -> NoDup (prefixes cpath segs).
Proof.
  revert cpath. induction segs as [|s r IH]; intros cpath Hsegs;
    cbn [prefixes]; [constructor|].
  inversion Hsegs as [|s' r' Hs Hr]; subst. apply NoDup_cons. split.
  - intros Hin. pose proof (prefixes_longer _ _ _ Hr Hin). lia.
  - apply IH, Hr.
Qed.

Lemma split_prefixes_nodup dir :
  Forall (fun s => s <> "") (Py.split Py.slash dir) ->
  NoDup (prefixes "" (Py.split Py.slash dir)).
Proof. intros Hne. apply segments_prefixes_nodup, split_segments, Hne. Qed.

Lemma mkdir_walk_cached fuel readonly segs :
  forall parent cpath k (w : world state),
  chain_cached (gdriveids w) cpath k segs ->
  mkdir_walk fuel readonly segs parent cpath w
  = (Ok (Finished (chain_end parent k segs)), w).
Proof.
  induction segs as [|s r IH]; intros parent cpath k w Hc; [reflexivity|].
  destruct Hc as [Hs Hr]. cbn [mkdir_walk chain_end].
  unfold bind at 1. unfold cache_hit, cached. rewrite Hs, fresh_id_truthy.
  apply IH, Hr.
Qed.

(** C1.  On the Drive with an empty tree, an empty cache, nothing
    scripted to fail and the lock free, [gdrive_mkdir(dir)] for a
    non-empty path whose prefixes are all different (as they are when no
    segment is empty) creates one folder per segment, in order, each
    under the folder created just before it and the first under
    ['root'], stores the id of each under its prefix in the cache, sends
    one listing and one create per segment, and returns the id of the
    last folder; called again, it returns the same id, sends no request
    at all and leaves the tree and the cache as they are. *)
Theorem gdrive_mkdir_creates_chain
    (fuel : nat) (dir : string) (k : nat) (p g : Z) (lg : list event) :
  dir <> "" ->
  NoDup (prefixes "" (Py.split Py.slash dir)) ->
  let segs := Py.split Py.slash dir in
  let w := World (State [] k [] 0 p g) ∅ lg in
  let st' := State (chain "root" k segs) (k + length segs) [] 0 p g in
  let w' :=
    World st' (chain_cache "" k segs ∅)
      (lg ++ EvFlock lockfile true
          :: chain_log "root" k segs ++ [EvClose lockfile; EvRemove lockfile]) in
  gdrive_mkdir (S fuel) dir false w = (Ok (chain_end "root" k segs), w')
  /\ length (chain "root" k segs) = length segs
  /\ chain_cached (chain_cache "" k segs ∅) "" k segs
  /\ gdrive_mkdir (S fuel) dir false w'
     = (Ok (chain_end "root" k segs),
        World st' (chain_cache "" k segs ∅)
          (log w' ++ [EvFlock lockfile true; EvClose lockfile; EvRemove lockfile])).
Proof.
  intros Hne Hnd segs w st' w'. fold segs in Hnd.
  assert (Hdir : Py.truthy dir = true) by (destruct dir; [congruence | reflexivity]).
  pose proof (chain_cache_cached "" k segs ∅ Hnd) as Hcached.
  split; [|split; [apply length_chain | split; [exact Hcached|]]].
  - unfold gdrive_mkdir. rewrite Hdir. cbn [negb].
    unfold bind at 1. subst w. rewrite drive_lock.
    unfold bind at 1. fold segs.
    rewrite (mkdir_walk_creates fuel segs "root" "" [] k 0%nat p g ∅);
      [|exact Hnd | | | |].
    + unfold bind at 1. rewrite drive_unlock. cbn [app ret]. subst w' st'.
      rewrite <- !app_assoc. reflexivity.
    + intros o Ho. apply elem_of_nil in Ho. destruct Ho.
    + intros o j Ho. apply elem_of_nil in Ho. destruct Ho.
    + intros j _. apply fresh_id_not_root.
    + intros key _. apply lookup_empty.
  - unfold gdrive_mkdir. rewrite Hdir. cbn [negb].
    unfold bind at 1. subst w' st'. rewrite drive_lock.
    unfold bind at 1. fold segs.
    rewrite (mkdir_walk_cached (S fuel) false segs "root" "" k); [|exact Hcached].
    unfold bind at 1. rewrite drive_unlock. cbn [ret log].
    rewrite <- !app_assoc. reflexivity.
Qed.

(** *** Backing up *)

(** Some untrashed object under [bfid] bears the name [nm]. *)
Definition taken (objs : list gobject) (bfid nm : string) : bool :=
  existsb (matches (QNamed bfid nm)) objs.

(** The object [i] renamed to [nm] and moved from the parents [old] to
    [bfid]. *)
Definition relocate (i nm bfid : string) (old : list string)
    (objs : list gobject) : list gobject :=
  map (reparent_object i bfid old) (map (rename_object i nm) objs).

(** The listings of the probe: one per suffix tried, from the [i]-th. *)
Fixpoint probe_log (bfid name : string) (i n : nat) : list event :=
  match n with
  | O => []
  | S n' =>
      EvRequest (FilesList (QNamed bfid (name +:+ bak_suffix i)) (fsel None) None)
        :: probe_log bfid name (S i) n'
  end.

Lemma drive_get fuel folder name objs k b p g c lg :
  gdrive_get (S fuel) folder name (World (State objs k [] b p g) c lg)
  = (Ok (map to_item (List.filter (matches (QNamed folder name)) objs)),
     World (State objs k [] b p g) c
       (lg ++ [EvRequest (FilesList (QNamed folder name) (fsel None) None)])).
Proof. reflexivity. Qed.

Lemma filter_nonempty_existsb {A} (f : A -> bool) (l : list A) :
  (0 <? length (List.filter f l))%nat = existsb f l.
Proof.
  induction l as [|x l IH]; [reflexivity|]. cbn.
  destruct (f x); [reflexivity | exact IH].
Qed.

Lemma backup_probe_run fuel bfid name objs k b p g c n :
  forall m i lg,
  (n < m)%nat ->
  (forall j, (j < n)%nat -> taken objs bfid (name +:+ bak_suffix (i + j)) = true) ->
  taken objs bfid (name +:+ bak_suffix (i + n)) = false ->
  backup_probe (S fuel) m bfid name i (World (State objs k [] b p g) c lg)
  = (Ok (bak_suffix (i + n)),
     World (State objs k [] b p g) c (lg ++ probe_log bfid name i (S n))).
Proof.
  induction n as [|n IH]; intros m i lg Hm Htaken Hfree;
    (destruct m as [|m]; [lia|]).
  - cbn [backup_probe]. unfold bind at 1. rewrite drive_get.
    rewrite length_map, filter_nonempty_existsb.
    fold (taken objs bfid (name +:+ bak_suffix i)).
    rewrite Nat.add_0_r in Hfree. rewrite Hfree, Nat.add_0_r. reflexivity.
  - cbn [backup_probe]. unfold bind at 1. rewrite drive_get.
    rewrite length_map, filter_nonempty_existsb.
    fold (taken objs bfid (name +:+ bak_suffix i)).
    specialize (Htaken O ltac:(lia)) as H0. rewrite Nat.add_0_r in H0.
    rewrite H0. rewrite IH.
    + rewrite <- app_assoc, Nat.add_succ_r. reflexivity.
    + lia.
    + intros j Hj. specialize (Htaken (S j) ltac:(lia)).
      rewrite Nat.add_succ_r in Htaken. exact Htaken.
    + rewrite Nat.add_succ_r in Hfree. exact Hfree.
Qed.

Lemma drive_rename fuel i nm retry objs k b p g c lg :
  existsb (has_id i) objs = true ->
  google_api_command (S fuel) (CmdRename i nm) retry
    (World (State objs k [] b p g) c lg)
  = (Ok (VResponse (Response None None None i)),
     World (State (map (rename_object i nm) objs) k [] b p g) c
       (lg ++ [EvRequest (FilesUpdateName i nm)])).
Proof.
  intros Hx. cbn [google_api_command attempt]. unfold try_except, bind, remote.
  cbn. rewrite Hx. reflexivity.
Qed.

Lemma find_existsb {A} (f : A -> bool) (l : list A) x :
  List.find f l = Some x -> existsb f l = true.
Proof.
  induction l as [|y l IH]; [discriminate|]. cbn.
  destruct (f y); [reflexivity | exact IH].
Qed.

Lemma drive_move fuel i bfid retry objs k b p g c lg o :
  List.find (has_id i) objs = Some o ->
  google_api_command (S fuel) (CmdMove i bfid) retry
    (World (State objs k [] b p g) c lg)
  = (Ok (VResponse (Response None None None i)),
     World (State (map (reparent_object i bfid (o_parents o)) objs) k [] b p g) c
       (lg ++ [EvRequest (FilesGet i);
               EvRequest (FilesUpdateParents i bfid (o_parents o))])).
Proof.
  intros Hf. pose proof (find_existsb _ _ _ Hf) as Hx.
  cbn [google_api_command attempt]. unfold try_except, bind, remote.
  cbn. rewrite Hf. cbn. rewrite Hx. cbn. rewrite <- app_assoc. reflexivity.
Qed.

Lemma has_id_rename i nm o : has_id i (rename_object i nm o) = has_id i o.
Proof. unfold rename_object. destruct (has_id i o) eqn:Ho; [|exact Ho]. exact Ho. Qed.

Lemma find_rename i nm objs o :
  List.find (has_id i) objs = Some o ->
  List.find (has_id i) (map (rename_object i nm) objs)
  = Some (rename_object i nm o).
Proof.
  induction objs as [|x objs IH]; [discriminate|]. cbn [List.find map].
  rewrite has_id_rename. destruct (has_id i x); [intros [= ->]; reflexivity | exact IH].
Qed.

Lemma parents_rename i nm o : o_parents (rename_object i nm o) = o_parents o.
Proof. unfold rename_object. destruct (has_id i o); reflexivity. Qed.

Lemma filter_out_self (l : list string) :
  List.filter (fun p => negb (bool_decide (p ∈ l))) l = [].
Proof.
  assert (Hg : forall l', (forall x, x ∈ l' -> x ∈ l) ->
            List.filter (fun p => negb (bool_decide (p ∈ l))) l' = []).
  { induction l' as [|x l' IH]; intros Hsub; [reflexivity|]. cbn.
    rewrite bool_decide_eq_true_2 by (apply Hsub; left). cbn.
    apply IH. intros y Hy. apply Hsub. right. exact Hy. }
  apply Hg. auto.
Qed.

Lemma find_has_id i objs o :
  List.find (has_id i) objs = Some o -> o ∈ objs /\ has_id i o = true.
Proof.
  intros Hf. apply List.find_some in Hf as [Hin Hid].
  split; [apply list_elem_of_In, Hin | exact Hid].
Qed.

Lemma relocate_object i nm bfid objs o :
  List.find (has_id i) objs = Some o ->
  GObject (o_id o) nm (o_mime o) [bfid] (o_trashed o) (o_created o)
    ∈ relocate i nm bfid (o_parents o) objs.
Proof.
  intros Hf. apply find_has_id in Hf as [Hin Hid]. unfold relocate.
  apply list_elem_of_fmap. exists (rename_object i nm o). split.
  - unfold reparent_object, rename_object. rewrite Hid. unfold has_id in *.
    cbn. rewrite Hid. cbn. rewrite filter_out_self. reflexivity.
  - apply list_elem_of_fmap. exists o. split; [reflexivity | exact Hin].
Qed.

(** The relocation step of [gdrive_backup].  On the Drive, when [folder]
    and [folder/name] resolve (to [fid] and to the id of an object [o] of
    the tree) and [bfid] is whatever [gdrive_mkdir] returns for
    [os.path.join(folder, 'old')], which need not be a folder under
    [fid] (it is not when [folder] starts with a slash),
    [gdrive_backup] tries the names [name.bak],
    [name.bak1], [name.bak2], ... under [bfid] in this order, stops at
    the first one, the [n]-th, that no untrashed object under [bfid]
    bears, renames the object to it, moves it from its parents to
    [bfid], removes [folder/name] from the cache and returns [True]. *)
Theorem gdrive_backup_relocates
    (fuel : nat) (folder name : string) (w w1 w2 : world state)
    (fid id bfid : string) (objs : list gobject) (k b : nat) (p g : Z)
    (c : gmap string string) (lg : list event) (o : gobject) (n : nat) :
  gdrive_find (S fuel) folder w = (Ok fid, w1) ->
  Py.truthy fid = true ->
  gdrive_find (S fuel) (Py.join folder name) w1 = (Ok id, w2) ->
  Py.truthy id = true ->
  gdrive_mkdir (S fuel) (Py.join folder "old") false w2
    = (Ok bfid, World (State objs k [] b p g) c lg) ->
  List.find (has_id id) objs = Some o ->
  (forall j, (j < n)%nat -> taken objs bfid (name +:+ bak_suffix j) = true) ->
  taken objs bfid (name +:+ bak_suffix n) = false ->
  (n <= fuel)%nat ->
  let nm := name +:+ bak_suffix n in
  gdrive_backup (S fuel) folder name w
  = (Ok true,
     World (State (relocate id nm bfid (o_parents o) objs) k [] b p g)
       (delete (Py.join folder name) c)
       (lg ++ probe_log bfid name 0 (S n)
           ++ [EvPrint ("moving duplicate - " +:+ name +:+ " -> old/"
                          +:+ name +:+ bak_suffix n);
               EvRequest (FilesUpdateName id nm);
               EvRequest (FilesGet id);
               EvRequest (FilesUpdateParents id bfid (o_parents o))]))
  /\ GObject (o_id o) nm (o_mime o) [bfid] (o_trashed o) (o_created o)
       ∈ relocate id nm bfid (o_parents o) objs
  /\ delete (Py.join folder name) c !! Py.join folder name = None.
Proof.
  intros Hfid Tfid Hid Tid Hmk Ho Htaken Hfree Hn nm.
  split; [|split; [apply relocate_object, Ho | apply lookup_delete_eq]].
  assert (Hcached : is_Some (c !! Py.join folder name)).
  { pose proof (gdrive_find_found_cached _ _ _ _ _ Hid Tid) as H2.
    pose proof (gdrive_mkdir_cache_grows (S fuel) (Py.join folder "old") false w2
                  (Py.join folder name)) as H3.
    rewrite Hmk in H3. cbn in H3. apply H3. rewrite H2. eauto. }
  destruct Hcached as [v Hv].
  unfold gdrive_backup.
  unfold bind at 1. rewrite Hfid.
  unfold bind at 1. rewrite Hid.
  rewrite Tid, Tfid. cbn [negb orb].
  unfold bind at 1. rewrite Hmk.
  unfold bind at 1.
  rewrite (backup_probe_run fuel bfid name objs k b p g c n (S fuel) 0 lg);
    [|lia | exact Htaken | exact Hfree].
  cbn [Nat.add].
  unfold bind at 1. cbn [print emit log env gdriveids].
  unfold bind at 1. rewrite drive_rename by (eapply find_existsb, Ho).
  unfold bind at 1.
  rewrite (drive_move fuel id bfid 0 _ k b p g c _ (rename_object id nm o))
    by (apply find_rename, Ho).
  rewrite parents_rename.
  unfold bind at 1. unfold cache_del. cbn [gdriveids]. rewrite Hv.
  cbn [env log]. fold (relocate id nm bfid (o_parents o) objs).
  rewrite <- !app_assoc. reflexivity.
Qed.

(** *** Worked runs on the Drive *)

Lemma gdrive_mkdir_creates_chain_witness :
  let r := gdrive_mkdir 1 "a/b/c" false (start empty) in
  fst r = Ok "id2"
  /\ objects (env (snd r))
     = [GObject "id0" "a" fmime ["root"] false "";
        GObject "id1" "b" fmime ["id0"] false "";
        GObject "id2" "c" fmime ["id1"] false ""]
  /\ gdriveids (snd r) !! "a/b" = Some "id1"
  /\ fst (gdrive_mkdir 1 "a/b/c" false (snd r)) = Ok "id2"
  /\ objects (env (snd (gdrive_mkdir 1 "a/b/c" false (snd r))))
     = objects (env (snd r)).
Proof.
  assert (Hne : Forall (fun s => s <> "") (Py.split Py.slash "a/b/c")).
  { vm_compute. repeat (constructor; [discriminate|]). constructor. }
  destruct (gdrive_mkdir_creates_chain 0 "a/b/c" 0 4242 4242 []
              ltac:(discriminate) (split_prefixes_nodup _ Hne))
    as (H1 & _ & _ & H2).
  cbv zeta. unfold start, empty. rewrite H1. cbn [fst snd]. rewrite H2.
  repeat split; reflexivity.
Defined.

(** The tree of the backup example: [d], [d/f], [d/old] and
    [d/old/f.bak]. *)
Definition backup_tree : state :=
  State [GObject "id0" "d" fmime ["root"] false "";
         GObject "id1" "f" "text/plain" ["id0"] false "";
         GObject "id2" "old" fmime ["id0"] false "";
         GObject "id3" "f.bak" "text/plain" ["id2"] false ""]
        4 [] 0 4242 4242.

Lemma gdrive_backup_relocates_witness :
  let r := gdrive_backup 2 "d" "f" (start backup_tree) in
  fst r = Ok true
  /\ objects (env (snd r))
     = [GObject "id0" "d" fmime ["root"] false "";
        GObject "id1" "f.bak1" "text/plain" ["id2"] false "";
        GObject "id2" "old" fmime ["id0"] false "";
        GObject "id3" "f.bak" "text/plain" ["id2"] false ""]
  /\ gdriveids (snd r) !! "d/f" = None.
Proof.
  pose (w1 := snd (gdrive_find 2 "d" (start backup_tree))).
  pose (w2 := snd (gdrive_find 2 "d/f" w1)).
  pose (w3 := snd (gdrive_mkdir 2 "d/old" false w2)).
  destruct (gdrive_backup_relocates 1 "d" "f" (start backup_tree) w1 w2
              "id0" "id1" "id2" (objects backup_tree) 4 0 4242 4242
              (gdriveids w3) (log w3)
              (GObject "id1" "f" "text/plain" ["id0"] false "") 1)
    as (H1 & _ & _).
  - reflexivity.
  - reflexivity.
  - reflexivity.
  - reflexivity.
  - reflexivity.
  - reflexivity.
  - intros j Hj. assert (j = 0)%nat as -> by lia. reflexivity.
  - reflexivity.
  - lia.
  - cbv zeta. rewrite H1. repeat split; reflexivity.
Defined.

(** C7.  [gdrive_backup] does not always relocate the object into the
    [folder/old] subtree, nor under the first suffix unused there.  On
    the tree [d], [d/f], [d/old], [d/old/f.bak] with nothing cached,
    [gdrive_backup('/d', 'f')] resolves ['/d'] to [id0] and ['/d/f'] to
    [id1] through [gdrive_find], which takes the leading ['/'] for the
    root; it then calls [gdrive_mkdir('/d/old')], which splits the path
    into ['', 'd', 'old'] and, finding no folder named [''] under the
    root, creates three folders: [''] under the root, [d] under it and
    [old] under that one.  The only name probed is [f.bak] under the new
    [old]; the file is renamed [f.bak], not [f.bak1], and moved out of
    [d] into the new [old], while [d/old] still holds its own [f.bak].
    The call returns [True]. *)
Theorem gdrive_backup_absolute_folder :
  Py.split Py.slash (Py.join "/d" "old") = [""; "d"; "old"]
  /\ gdrive_backup 2 "/d" "f" (start backup_tree)
     = (Ok true,
        World
          (State [GObject "id0" "d" fmime ["root"] false "";
                  GObject "id1" "f.bak" "text/plain" ["id6"] false "";
                  GObject "id2" "old" fmime ["id0"] false "";
                  GObject "id3" "f.bak" "text/plain" ["id2"] false "";
                  GObject "id4" "" fmime ["root"] false "";
                  GObject "id5" "d" fmime ["id4"] false "";
                  GObject "id6" "old" fmime ["id5"] false ""]
             7 [] 0 4242 4242)
          (delete "/d/f"
             (<["d/old" := "id6"]> (<["d" := "id5"]> (<["" := "id4"]>
                (<["/d/f" := "id1"]> (<["/d" := "id0"]> ∅))))))
          [EvRequest (FilesList (QNamed "root" "d") (fsel None) None);
           EvRequest (FilesList (QNamed "id0" "f") (fsel None) None);
           EvFlock lockfile true;
           EvRequest (FilesList (QFolderNamed fmime "root" "") (fsel None) None);
           EvRequest (FilesCreate (Metadata "" (Some fmime) (Some ["root"])) None);
           EvRequest (FilesList (QFolderNamed fmime "id4" "d") (fsel None) None);
           EvRequest (FilesCreate (Metadata "d" (Some fmime) (Some ["id4"])) None);
           EvRequest (FilesList (QFolderNamed fmime "id5" "old") (fsel None) None);
           EvRequest (FilesCreate (Metadata "old" (Some fmime) (Some ["id5"])) None);
           EvClose lockfile; EvRemove lockfile;
           EvRequest (FilesList (QNamed "id6" "f.bak") (fsel None) None);
           EvPrint "moving duplicate - f -> old/f.bak";
           EvRequest (FilesUpdateName "id1" "f.bak");
           EvRequest (FilesGet "id1");
           EvRequest (FilesUpdateParents "id1" "id6" ["id0"])]).
Proof. split; vm_compute; reflexivity. Qed.

(** A tree with the single file [x] under ['root']. *)
Definition delete_tree : state :=
  State [GObject "id0" "x" "text/plain" ["root"] false ""] 1 [] 0 4242 4242.

(** C8.  [gdrive_delete] does not always end without raising: with the
    file [x] under ['root'] and nothing cached, [gdrive_delete('root',
    'x')] lists and deletes the file, and then raises the [KeyError] of
    [del gdriveids['root/x']] instead of returning. *)
Theorem gdrive_delete_raises_key_error :
  gdrive_delete 1 "root" "x" (start delete_tree)
  = (Raise "KeyError: 'root/x'",
     World (State [] 1 [] 0 4242 4242) ∅
       [EvRequest (FilesList (QNamed "root" "x") (fsel None) None);
        EvPrint "deleting duplicate - x (id0)";
        EvRequest (FilesDelete "id0")]).
Proof. reflexivity. Qed.

(** A request refused once for quota, by a process 8 ids after its
    group leader. *)
Definition throttled : state := State [] 0 [Some "Quota exceeded"] 0 4250 4242.

Lemma google_api_command_retry_policy_witness :
  google_api_command 2 (CmdDelete "x") 0 (start throttled)
  = google_api_command 1 (CmdDelete "x") 1
      (World (State [] 0 [] 0 4250 4242) ∅
         [EvRequest (FilesDelete "x");
          EvPrint "RETRYING delete: Rate Limit Exceeded (GID 4242, PID 4250, WAIT 13 sec)";
          EvSleep 13]).
Proof.
  destruct (google_api_command_retry_policy (CmdDelete "x") 0 1
              (start throttled)
              (World (State [] 0 [] 0 4250 4242) ∅ [EvRequest (FilesDelete "x")])
              "Quota exceeded") as (_ & _ & H3).
  - lia.
  - reflexivity.
  - exact H3.
Defined.


(** A service that refuses [n] requests for quota before it answers. *)
Definition failing (n : nat) : state :=
  State [] 0 (replicate n (Some "Quota exceeded")) 0 4250 4242.

(** The world after one refused create and the wait that follows. *)
Definition refused (md : metadata) (e : string) (w : world state) : world state :=
  waited (CmdCreate md) e
    (World (pop_fault (env w)) (gdriveids w)
       (log w ++ [EvRequest (FilesCreate md None)])).

Fixpoint refused_times (n : nat) (md : metadata) (e : string)
    (w : world state) : world state :=
  match n with
  | O => w
  | S n' => refused_times n' md e (refused md e w)
  end.

Lemma drive_keeps_failing md e n : forall fuel retry (w : world state) rest,
  faults (env w) = replicate n (Some e) ++ rest ->
  keeps_failing (CmdCreate md) n fuel retry w (refused_times n md e w).
Proof.
  induction n as [|n IH]; intros fuel retry w rest Hf; [apply kf_nil|].
  cbn [refused_times].
  apply (kf_cons _ _ _ _ _ e
           (World (pop_fault (env w)) (gdriveids w)
              (log w ++ [EvRequest (FilesCreate md None)]))).
  - cbn [attempt]. unfold bind, remote. cbn [execute drive_env]. unfold exec.
    rewrite Hf. reflexivity.
  - apply (IH _ _ _ rest). unfold refused, waited. cbn [env sleep drive_env].
    unfold wait, pop_fault. cbn [faults]. rewrite Hf. reflexivity.
Qed.

Definition sleeps (lg : list event) : list Z :=
  omap (fun ev => match ev with EvSleep d => Some d | _ => None end) lg.

Definition requests (lg : list event) : list request :=
  omap (fun ev => match ev with EvRequest r => Some r | _ => None end) lg.

Lemma google_api_command_retry_ceiling_witness :
  let md := Metadata "n" None None in
  let ok := google_api_command 4 (CmdCreate md) 0 (start (failing 3)) in
  let ko := google_api_command 11 (CmdCreate md) 0 (start (failing 11)) in
  fst ok = Ok (VResponse (Response None None None "id0"))
  /\ sleeps (log (snd ok)) = [13; 13; 13]
  /\ length (requests (log (snd ok))) = 4%nat
  /\ fst ko = Exit 1
  /\ length (sleeps (log (snd ko))) = 10%nat
  /\ length (requests (log (snd ko))) = 11%nat
  /\ objects (env (snd ko)) = [].
Proof.
  intros md ok ko.
  pose (w3 := refused_times 3 md "Quota exceeded" (start (failing 3))).
  pose (w10 := refused_times 10 md "Quota exceeded" (start (failing 11))).
  destruct (google_api_command_retry_ceiling (CmdCreate md) 3 0
              (start (failing 3)) w3) as [H1 _].
  { apply (drive_keeps_failing md _ 3 _ _ _ []). reflexivity. }
  { lia. }
  specialize (H1 (VResponse (Response None None None "id0"))
                (snd (attempt (google_api_command 0) (CmdCreate md) w3))).
  destruct (google_api_command_retry_ceiling (CmdCreate md) 10 0
              (start (failing 11)) w10) as [_ H2].
  { apply (drive_keeps_failing md _ 10 _ _ _ [Some "Quota exceeded"]). reflexivity. }
  { lia. }
  specialize (H2 "Quota exceeded"
                (snd (attempt (google_api_command 0) (CmdCreate md) w10)) eq_refl).
  change (3 + 1)%nat with 4%nat in H1. change (10 + 1)%nat with 11%nat in H2.
  unfold ok, ko. rewrite H1, H2 by (vm_compute; reflexivity).
  repeat split; vm_compute; reflexivity.
Defined.

(** A tree with the single folder [a]. *)
Definition tree_a : state :=
  State [GObject "id0" "a" fmime ["root"] false ""] 1 [] 0 4242 4242.

Lemma gdrive_mkdir_readonly_never_creates_witness :
  let r := gdrive_mkdir 1 "a/b" true (start tree_a) in
  fst r = Ok ""
  /\ env (snd r) = tree_a
  /\ requests (log (snd r))
     = [FilesList (QFolderNamed fmime "root" "a") (fsel None) None;
        FilesList (QFolderNamed fmime "id0" "b") (fsel None) None].
Proof.
  pose (w1 := snd (mkdir_walk 1 true ["a"] "root" "" (start tree_a))).
  pose (w2 := snd (google_api_command 1
                     (CmdList (QFolderNamed fmime "id0" "b") None None) 0 w1)).
  destruct (gdrive_mkdir_readonly_never_creates 1 "a/b" (start tree_a))
    as [_ H2].
  specialize (H2 ["a"] "b" [] "id0" w1 (VFiles []) w2).
  cbv zeta. rewrite H2 by (vm_compute; reflexivity).
  repeat split; vm_compute; reflexivity.
Defined.

Lemma gdrive_find_not_found_is_empty_witness :
  fst (gdrive_find 1 "a/b" (start empty)) = Ok ""
  /\ fst (gdrive_find 1 "a/b" (start tree_a)) = Ok ""
  /\ fst (gdrive_find 1 "a" (start tree_a)) = Ok "id0".
Proof.
  destruct (gdrive_find_not_found_is_empty 1 "a/b" (start empty))
    as (_ & Hchain & _ & _).
  specialize (Hchain (snd (gdrive_mkdir 1 "a" true (start empty)))).
  destruct (gdrive_find_not_found_is_empty 1 "a/b" (start tree_a))
    as (_ & _ & Hleaf & _).
  pose (w1 := snd (gdrive_mkdir 1 "a" true (start tree_a))).
  specialize (Hleaf "id0" w1 [] (snd (gdrive_get 1 "id0" "b" w1))).
  rewrite Hchain by (vm_compute; reflexivity).
  rewrite Hleaf.
  - split; [reflexivity|]. split; [reflexivity|]. vm_compute. reflexivity.
  - vm_compute; reflexivity.
  - right. split; vm_compute; reflexivity.
  - reflexivity.
  - reflexivity.
  - discriminate.
  - vm_compute; reflexivity.
  - reflexivity.
Defined.


(** *** Look-ups on the Drive always return *)

Lemma drive_walk_readonly_returns fuel segs :
  forall pid cpath objs k b p g (c : gmap string string) lg,
  exists r c' lg',
    mkdir_walk (S fuel) true segs pid cpath (World (State objs k [] b p g) c lg)
    = (Ok r, World (State objs k [] b p g) c' lg').
Proof.
  induction segs as [|s rest IH]; intros pid cpath objs k b p g c lg.
  - eexists _, _, _. reflexivity.
  - cbn [mkdir_walk]. unfold bind at 1. unfold cache_hit.
    destruct (cached _ (next_cpath cpath s)) as [id|]; [apply IH|].
    unfold bind at 1. rewrite drive_list.
    destruct (first_id _) as [id|].
    + unfold bind at 1. cbn [cache_set env gdriveids log]. apply IH.
    + eexists _, _, _. reflexivity.
Qed.

Lemma drive_mkdir_readonly_returns fuel dir objs k b p g (c : gmap string string) lg :
  exists v c' lg',
    gdrive_mkdir (S fuel) dir true (World (State objs k [] b p g) c lg)
    = (Ok v, World (State objs k [] b p g) c' lg').
Proof.
  unfold gdrive_mkdir. destruct (negb (Py.truthy dir)).
  - eexists _, _, _. reflexivity.
  - unfold bind at 1. cbn [ret]. unfold bind at 1.
    destruct (drive_walk_readonly_returns fuel (Py.split Py.slash dir)
                "root" "" objs k b p g c lg) as (r & c' & lg' & ->).
    destruct r; eexists _, _, _; reflexivity.
Qed.

(** With nothing scripted to fail, [gdrive_find] returns a string on any
    tree and any cache, and leaves the tree as it is. *)
Lemma drive_find_returns fuel gpath objs k b p g (c : gmap string string) lg :
  exists v c' lg',
    gdrive_find (S fuel) gpath (World (State objs k [] b p g) c lg)
    = (Ok v, World (State objs k [] b p g) c' lg').
Proof.
  unfold gdrive_find. unfold bind at 1. unfold cache_hit.
  destruct (cached _ gpath) as [id|]; [eexists _, _, _; reflexivity|].
  unfold bind at 1. unfold bind at 1.
  destruct (cached _ _) as [id|].
  - cbn [ret]. destruct (negb (Py.truthy id)); [eexists _, _, _; reflexivity|].
    destruct (negb _ || _); [eexists _, _, _; reflexivity|].
    unfold bind at 1. rewrite drive_get.
    destruct (first_id _); eexists _, _, _; reflexivity.
  - destruct (drive_mkdir_readonly_returns fuel
                (if String.eqb (Py.dirname gpath) "." || String.eqb (Py.dirname gpath) "/"
                 then "" else Py.dirname gpath) objs k b p g c lg)
      as (v & c' & lg' & ->).
    destruct (negb (Py.truthy v)); [eexists _, _, _; reflexivity|].
    destruct (negb _ || _); [eexists _, _, _; reflexivity|].
    unfold bind at 1. rewrite drive_get.
    destruct (first_id _); eexists _, _, _; reflexivity.
Qed.

(** *** Paths with empty segments *)

(** ['a//b'] : the empty segment is a folder of its own, named ['']. *)
Example gdrive_mkdir_empty_segment :
  let r := gdrive_mkdir 1 "a//b" false (start empty) in
  fst r = Ok "id2"
  /\ objects (env (snd r))
     = [GObject "id0" "a" fmime ["root"] false "";
        GObject "id1" "" fmime ["id0"] false "";
        GObject "id2" "b" fmime ["id1"] false ""].
Proof. vm_compute. split; reflexivity. Qed.

(** ['a///b'] : the second empty segment has the prefix ['a/'] of the
    first, finds it in the cache and creates nothing. *)
Example gdrive_mkdir_repeated_prefix :
  let r := gdrive_mkdir 1 "a///b" false (start empty) in
  Py.split Py.slash "a///b" = ["a"; ""; ""; "b"]
  /\ fst r = Ok "id2"
  /\ map o_name (objects (env (snd r))) = ["a"; ""; "b"].
Proof. vm_compute. repeat split; reflexivity. Qed.

End DriveFacts.

(** ** Running against the pager *)

Module PagerFacts.
Import Pager.

Lemma google_api_command_list_aggregates_witness :
  let r := google_api_command 3 (CmdList (QChildren "root") None None) 0
             (World three_pages ∅ []) in
  fst r = Ok (VFiles (replicate 1000 (file "p1") ++ replicate 1000 (file "p2")
                        ++ replicate 42 (file "p3")))
  /\ (forall l, fst r = Ok (VFiles l) -> length l = 2042%nat)
  /\ length (log (snd r)) = 3%nat.
Proof.
  destruct (google_api_command_list_aggregates (QChildren "root") None None 0 3
              (World three_pages ∅ [])) as [H1 _].
  specialize (H1 [(None, replicate 1000 (file "p1"));
                  (Some "t2", replicate 1000 (file "p2"));
                  (Some "t3", replicate 42 (file "p3"))] three_pages).
  cbv zeta. rewrite H1.
  - cbn [fst snd map concat log length list_requests]. rewrite app_nil_r.
    split; [reflexivity|]. split; [|reflexivity].
    intros l [= <-]. vm_compute. reflexivity.
  - eapply chain_next; [reflexivity | reflexivity | reflexivity |].
    eapply chain_next; [reflexivity | reflexivity | reflexivity |].
    eapply chain_last; reflexivity.
  - cbn. lia.
Defined.

End PagerFacts.

(** * Further properties *)

(** ** The executor *)

(** The seconds slept and the requests sent, as a log records them. *)
Definition slept (lg : list event) : list Z :=
  omap (fun ev => match ev with EvSleep d => Some d | _ => None end) lg.

Definition sent (lg : list event) : list request :=
  omap (fun ev => match ev with EvRequest r => Some r | _ => None end) lg.

Lemma slept_app l1 l2 : slept (l1 ++ l2) = slept l1 ++ slept l2.
Proof. apply omap_app. Qed.

Lemma sent_app l1 l2 : sent (l1 ++ l2) = sent l1 ++ sent l2.
Proof. apply omap_app. Qed.

(** The events of one command: its own requests and the lines and sleeps
    of its retries. *)
Definition own_events (cmd : command) (ev : event) : Prop :=
  match ev with
  | EvRequest r => may_send cmd r
  | EvPrint _ | EvSleep _ => True
  | _ => False
  end.

(** The commands that send one request per attempt, or two for a move:
    all but [list]. *)
Definition single_shot (cmd : command) : bool :=
  match cmd with
  | CmdList _ _ _ => false
  | _ => true
  end.

Section ExecutorMore.
Context {E : Type} `{Env E}.

(** X1.  Whatever the command, the retry count and the service do, no
    exception leaves [google_api_command]: it ends with a value or with
    [sys.exit]. *)
Theorem google_api_command_never_raises
    (fuel : nat) (cmd : command) (retry : nat) (w : world E) (e : string) :
  fst (google_api_command fuel cmd retry w) <> Raise e.
Proof. apply google_api_command_noraise. Qed.

(** X2.  Through all its retries and pages a command sends only its own
    requests (a [list] its listing under some cursor, a [move] the [get]
    and the update of its file, ...), never takes or releases the lock,
    and leaves the cache [gdriveids] as it is. *)
Theorem google_api_command_sends_own_requests
    (fuel : nat) (cmd : command) (retry : nat) (w : world E) :
  extends (own_events cmd) w (snd (google_api_command fuel cmd retry w))
  /\ gdriveids (snd (google_api_command fuel cmd retry w)) = gdriveids w.
Proof.
  split; [|apply google_api_command_same_cache].
  apply google_api_command_respects; [exact _ | | |].
  - intros; apply extends_emit; exact I.
  - intros; apply extends_time_sleep; exact I.
  - intros r Hr. apply extends_remote. exact Hr.
Qed.

Lemma remote_run r (w : world E) :
  fst (remote r w) <> OutOfFuel
  /\ log (snd (remote r w)) = log w ++ [EvRequest r].
Proof.
  unfold remote. destruct (execute r (env w)) as [e' [err|v]]; cbn; split;
    (discriminate || reflexivity).
Qed.

Lemma remote_then_ret {A} r (f : response -> A) (w : world E) :
  fst ((res <- remote r ;; ret (f res)) w) <> OutOfFuel
  /\ exists evs,
       log (snd ((res <- remote r ;; ret (f res)) w)) = log w ++ evs
       /\ slept evs = [].
Proof.
  unfold bind. destruct (remote_run r w) as [Hf Hl].
  destruct (remote r w) as [[v|e|c|] w1]; cbn in *;
    (split; [discriminate || congruence|]);
    exists [EvRequest r]; (split; [exact Hl | reflexivity]).
Qed.

(** One attempt of a single-shot command never sleeps and never runs out
    of fuel. *)
Lemma attempt_single_shot self cmd (w : world E) :
  single_shot cmd = true ->
  fst (attempt self cmd w) <> OutOfFuel
  /\ exists evs, log (snd (attempt self cmd w)) = log w ++ evs /\ slept evs = [].
Proof.
  intros Hs.
  destruct cmd as [q a2 a3|arg1|arg1 arg2|arg1|arg1|arg1 arg2|arg1 arg2|arg1
                  |arg1 arg2|arg1|arg1|nm];
    try discriminate Hs; cbn [attempt]; try apply remote_then_ret.
  - (* move *)
    unfold bind at 1 3.
    destruct (remote_run (FilesGet arg1) w) as [Hf Hl].
    destruct (remote (FilesGet arg1) w) as [[v|e|c|] w1]; cbn [fst snd] in *;
      try (split; [discriminate || congruence|];
           exists [EvRequest (FilesGet arg1)]; (split; [exact Hl | reflexivity])).
    destruct (r_parents v) as [old|].
    + destruct (remote_then_ret (FilesUpdateParents arg1 arg2 old) VResponse w1)
        as [Hf' (evs & Hl' & Hs')].
      split; [exact Hf'|]. exists ([EvRequest (FilesGet arg1)] ++ evs).
      split; [rewrite Hl', Hl, <- app_assoc; reflexivity|].
      rewrite slept_app, Hs'. reflexivity.
    + cbn. split; [discriminate|].
      exists [EvRequest (FilesGet arg1)]. split; [exact Hl | reflexivity].
  - (* other *)
    cbn. split; [discriminate|]. exists []. split; [symmetry; apply app_nil_r | reflexivity].
Qed.

Lemma retry_delay_range e (w : world E) : 3 <= retry_delay e w <= 15.
Proof.
  unfold retry_delay. destruct (rate_limited e); [|lia].
  pose proof (backoff_range (getpid (env w)) (getpgrp (env w))). lia.
Qed.

Lemma single_shot_bounded cmd :
  single_shot cmd = true ->
  forall fuel retry (w : world E),
  (retry <= 10)%nat ->
  (11 - retry <= fuel)%nat ->
  fst (google_api_command fuel cmd retry w) <> OutOfFuel
  /\ exists evs,
       log (snd (google_api_command fuel cmd retry w)) = log w ++ evs
       /\ (length (slept evs) <= 10 - retry)%nat
       /\ Forall (fun d => 3 <= d <= 15) (slept evs).
Proof.
  intros Hs. induction fuel as [|fuel IH]; intros retry w Hr Hf; [lia|].
  cbn [google_api_command]. unfold try_except.
  destruct (attempt_single_shot (google_api_command fuel) cmd w Hs)
    as [Hnf (evs & Hl & Hsl)].
  destruct (attempt (google_api_command fuel) cmd w) as [[v|e|c|] w1];
    cbn [fst snd] in *;
    try (split; [discriminate || congruence|];
         exists evs; rewrite Hsl; (split; [exact Hl|]); (split; [cbn; lia | constructor])).
  unfold on_error. destruct (Nat.leb_spec 10 retry) as [Hge|Hlt].
  - cbn. split; [discriminate|].
    exists (evs ++ [EvPrint ("ERROR: " +:+ e +:+ Py.nl)]).
    rewrite slept_app, Hsl. split; [rewrite Hl, <- app_assoc; reflexivity|].
    split; [cbn; lia | constructor].
  - unfold bind. rewrite wait_before_retry_run.
    destruct (IH (S retry) (waited cmd e w1) ltac:(lia) ltac:(lia))
      as [Hnf' (evs' & Hl' & Hlen & Hall)].
    split; [exact Hnf'|].
    exists (evs ++ [EvPrint (retry_line cmd e w1); EvSleep (retry_delay e w1)] ++ evs').
    split.
    + rewrite Hl'. cbn [waited log]. rewrite Hl, <- !app_assoc. reflexivity.
    + rewrite !slept_app, Hsl. cbn [app slept omap]. cbn.
      split; [lia|]. constructor; [apply retry_delay_range | exact Hall].
Qed.

(** X3.  A command other than [list], called with [retry = 0] and a
    budget of eleven nested calls, always ends, by a value or by
    [sys.exit]: it sleeps at most ten times, each time between 3 and 15
    seconds, so it never waits more than 150 seconds in all. *)
Theorem google_api_command_bounded_wait
    (cmd : command) (fuel : nat) (w : world E) :
  single_shot cmd = true ->
  (11 <= fuel)%nat ->
  fst (google_api_command fuel cmd 0 w) <> OutOfFuel
  /\ exists evs,
       log (snd (google_api_command fuel cmd 0 w)) = log w ++ evs
       /\ (length (slept evs) <= 10)%nat
       /\ Forall (fun d => 3 <= d <= 15) (slept evs)
       /\ foldr Z.add 0 (slept evs) <= 150.
Proof.
  intros Hs Hf.
  destruct (single_shot_bounded cmd Hs fuel 0 w ltac:(lia) ltac:(lia))
    as [Hnf (evs & Hl & Hlen & Hall)].
  split; [exact Hnf|]. exists evs. repeat split; try assumption; try lia.
  assert (Hsum : forall l, Forall (fun d => 3 <= d <= 15) l ->
                 foldr Z.add 0 l <= 15 * Z.of_nat (length l)).
  { induction 1 as [|d l Hd _ IHl]; cbn [foldr length]; lia. }
  specialize (Hsum _ Hall). lia.
Qed.

End ExecutorMore.

(** ** The resolver and the operations *)

(** The events that leave the lock alone. *)
Definition no_lock (ev : event) : Prop :=
  match ev with
  | EvFlock _ _ | EvClose _ | EvRemove _ => False
  | _ => True
  end.

(** The events that do not release the lock. *)
Definition not_released (ev : event) : Prop :=
  match ev with
  | EvClose _ | EvRemove _ => False
  | _ => True
  end.

Section ResolverMore.
Context {E : Type} `{Env E}.
Variable fuel : nat.

Lemma bind_ok_inv {A B} (m : M E A) (k : A -> M E B) (w : world E) b w' :
  bind m k w = (Ok b, w') ->
  exists a w1, m w = (Ok a, w1) /\ k a w1 = (Ok b, w').
Proof.
  unfold bind. destruct (m w) as [[a|e|c|] w1]; try discriminate.
  intros Hk. exists a, w1. auto.
Qed.

Lemma bind_exit_inv {A B} (m : M E A) (k : A -> M E B) (w : world E) c w' :
  bind m k w = (Exit c, w') ->
  m w = (Exit c, w') \/ exists a w1, m w = (Ok a, w1) /\ k a w1 = (Exit c, w').
Proof.
  unfold bind. destruct (m w) as [[a|e|c'|] w1]; try discriminate.
  - intros Hk. right. exists a, w1. auto.
  - intros [= <- <-]. left. reflexivity.
Qed.

(** X4.  Once [gdrive_find] has returned an id for a path, asking again
    returns the same id from the cache: no request is sent and nothing
    changes. *)
Theorem gdrive_find_again (gpath : string) (w w' : world E) (id : string) :
  gdrive_find fuel gpath w = (Ok id, w') ->
  Py.truthy id = true ->
  gdrive_find fuel gpath w' = (Ok id, w').
Proof.
  intros Hf Ht. pose proof (gdrive_find_found_cached fuel _ _ _ _ Hf Ht) as Hc.
  unfold gdrive_find, bind, cache_hit, cached. rewrite Hc, Ht. reflexivity.
Qed.

(** X5.  The paths [''], ['.'] and ['/'] denote the root: unless the
    cache already holds an id for the path or for [''], [gdrive_find]
    returns ['root'] and caches it without sending any request. *)
Theorem gdrive_find_root (gpath : string) (w : world E) :
  gpath = "" \/ gpath = "." \/ gpath = "/" ->
  cached w gpath = None ->
  cached w "" = None ->
  gdrive_find fuel gpath w
  = (Ok "root", World (env w) (<[gpath := "root"]> (gdriveids w)) (log w)).
Proof.
  intros Hp Hc H0. unfold gdrive_find. unfold bind at 1. cbn [cache_hit].
  rewrite Hc. destruct Hp as [-> | [-> | ->]]; cbn [Py.dirname Py.basename];
    unfold bind at 1; cbn; rewrite H0; reflexivity.
Qed.

Lemma gdrive_get_cache_grows folder name :
  respects cache_grows (gdrive_get fuel folder name).
Proof.
  unfold gdrive_get.
  apply respects_bind; [exact _ | apply google_api_command_cache_grows |].
  intros; apply respects_ret; exact _.
Qed.

Lemma gdrive_find_cache_grows gpath :
  respects cache_grows (gdrive_find fuel gpath).
Proof.
  unfold gdrive_find.
  apply respects_bind; [exact _ | intros w; reflexivity |].
  intros [id|]; [apply respects_ret; exact _|].
  apply respects_bind; [exact _ | intros w; reflexivity |]. intros hit.
  apply respects_bind; [exact _ | |].
  { destruct hit; [apply respects_ret; exact _|].
    apply gdrive_mkdir_cache_grows. }
  intros pid. apply respects_if; [apply respects_ret; exact _|].
  apply respects_if.
  - apply respects_bind; [exact _ | apply cache_set_grows |].
    intros; apply respects_ret; exact _.
  - apply respects_bind; [exact _ | apply gdrive_get_cache_grows |]. intros out.
    destruct (first_id out).
    + apply respects_bind; [exact _ | apply cache_set_grows |].
      intros; apply respects_ret; exact _.
    + apply respects_ret; exact _.
Qed.

(** X6.  Resolution never forgets: whatever its outcome, every key of
    [gdriveids] before a [gdrive_find] or a [gdrive_mkdir] (read-only or
    not) is still a key after it. *)
Theorem resolution_keeps_cache_keys (w : world E) :
  (forall gpath, cache_grows w (snd (gdrive_find fuel gpath w)))
  /\ (forall dir readonly,
        cache_grows w (snd (gdrive_mkdir fuel dir readonly w))).
Proof.
  split.
  - intros gpath. apply gdrive_find_cache_grows.
  - intros dir readonly. apply gdrive_mkdir_cache_grows.
Qed.

(** X7.  [gdrive_backup] returns [False] only from its guard, having
    sent nothing but the listings of its two look-ups and removed no
    cache key; and when it returns [True] the cache no longer has an
    entry for [folder/name]. *)
Theorem gdrive_backup_outcomes (folder name : string) (w : world E) :
  (forall w',
     gdrive_backup fuel folder name w = (Ok false, w') ->
     extends lists_only w w' /\ cache_grows w w')
  /\ (forall w',
        gdrive_backup fuel folder name w = (Ok true, w') ->
        gdriveids w' !! Py.join folder name = None).
Proof.
  split; intros w' Hb; unfold gdrive_backup in Hb.
  - apply bind_ok_inv in Hb as (fid & w1 & H1 & Hb).
    apply bind_ok_inv in Hb as (id & w2 & H2 & Hb).
    pose proof (gdrive_find_lists_only fuel folder w) as L1.
    pose proof (gdrive_find_lists_only fuel (Py.join folder name) w1) as L2.
    pose proof (gdrive_find_cache_grows folder w) as G1.
    pose proof (gdrive_find_cache_grows (Py.join folder name) w1) as G2.
    rewrite H1 in L1, G1. rewrite H2 in L2, G2. cbn [snd] in *.
    destruct (negb (Py.truthy id) || negb (Py.truthy fid)).
    + injection Hb as <-. split; etransitivity; eassumption.
    + apply bind_ok_inv in Hb as (? & ? & _ & Hb).
      apply bind_ok_inv in Hb as (? & ? & _ & Hb).
      apply bind_ok_inv in Hb as (? & ? & _ & Hb).
      apply bind_ok_inv in Hb as (? & ? & _ & Hb).
      apply bind_ok_inv in Hb as (? & ? & _ & Hb).
      apply bind_ok_inv in Hb as (? & ? & _ & Hb).
      discriminate Hb.
  - apply bind_ok_inv in Hb as (fid & w1 & _ & Hb).
    apply bind_ok_inv in Hb as (id & w2 & _ & Hb).
    destruct (negb (Py.truthy id) || negb (Py.truthy fid)); [discriminate Hb|].
    apply bind_ok_inv in Hb as (? & ? & _ & Hb).
    apply bind_ok_inv in Hb as (? & ? & _ & Hb).
    apply bind_ok_inv in Hb as (? & ? & _ & Hb).
    apply bind_ok_inv in Hb as (? & ? & _ & Hb).
    apply bind_ok_inv in Hb as (? & w5 & _ & Hb).
    apply bind_ok_inv in Hb as ([] & w6 & Hd & Hb).
    injection Hb as <-. unfold cache_del in Hd.
    destruct (gdriveids w5 !! Py.join folder name); [|discriminate Hd].
    injection Hd as <-. cbn. apply lookup_delete_eq.
Qed.

Section WalkEvents.
Context (P : event -> Prop).
Hypothesis P_request : forall r, P (EvRequest r).
Hypothesis P_print : forall l, P (EvPrint l).
Hypothesis P_sleep : forall d, P (EvSleep d).

Lemma google_api_command_extends cmd retry :
  respects (extends P) (google_api_command fuel cmd retry).
Proof.
  apply google_api_command_respects; [exact _ | | |].
  - intros; apply extends_emit, P_print.
  - intros; apply extends_time_sleep, P_sleep.
  - intros; apply extends_remote, P_request.
Qed.

Lemma mkdir_walk_extends readonly subdirs : forall pid cpath,
  respects (extends P) (mkdir_walk fuel readonly subdirs pid cpath).
Proof.
  induction subdirs as [|subdir rest IH]; intros pid cpath; cbn [mkdir_walk].
  - apply respects_ret; exact _.
  - apply respects_bind; [exact _ | apply extends_cache_hit |].
    intros [id|]; [apply IH|].
    apply respects_bind; [exact _ | apply google_api_command_extends |].
    intros out. destruct (first_id (files_of out)) as [id|].
    + apply respects_bind; [exact _ | apply extends_cache_set | intros; apply IH].
    + apply respects_if; [apply respects_ret; exact _|].
      apply respects_bind; [exact _ | apply google_api_command_extends |].
      intros file.
      apply respects_bind; [exact _ | apply extends_cache_set | intros; apply IH].
Qed.

End WalkEvents.

(** A walk that may create never stops early. *)
Lemma mkdir_walk_creating_finishes subdirs : forall pid cpath (w : world E) r w',
  mkdir_walk fuel false subdirs pid cpath w = (Ok r, w') ->
  exists pid', r = Finished pid'.
Proof.
  induction subdirs as [|subdir rest IH]; intros pid cpath w r w' Hw;
    cbn [mkdir_walk] in Hw.
  - injection Hw as <- _. eauto.
  - apply bind_ok_inv in Hw as (hit & w1 & _ & Hw).
    destruct hit as [id|]; [eapply IH, Hw|].
    apply bind_ok_inv in Hw as (out & w2 & _ & Hw).
    destruct (first_id (files_of out)) as [id|].
    + apply bind_ok_inv in Hw as (? & ? & _ & Hw). eapply IH, Hw.
    + apply bind_ok_inv in Hw as (? & ? & _ & Hw).
      apply bind_ok_inv in Hw as (? & ? & _ & Hw). eapply IH, Hw.
Qed.

(** X8.  A [gdrive_mkdir] that may create and returns has held the lock
    around the whole walk.  [flock] refuses fewer than 60 attempts and
    then grants [/tmp/googleapi.lock]; the walk starts in the state of
    the environment in which [flock] granted it, before anything is
    sent, and touches the lock no more while it lists and creates; then
    the lock file is closed and [os_remove] removes it, as the last
    thing the call does. *)
Theorem gdrive_mkdir_lock_bracket (dir : string) (w w' : world E) (v : string) :
  Py.truthy dir = true ->
  gdrive_mkdir fuel dir false w = (Ok v, w') ->
  exists (k : nat) (e1 e2 : E) (w2 : world E) (mid : list event),
    (k < 60)%nat
    /\ lock_fails k (env w) e1
    /\ flock lockfile e1 = (e2, true)
    /\ mkdir_walk fuel false (Py.split Py.slash dir) "root" ""
         (World e2 (gdriveids w)
            (log w ++ failed_attempts k ++ [EvFlock lockfile true]))
       = (Ok (Finished v), w2)
    /\ log w2 = (log w ++ failed_attempts k ++ [EvFlock lockfile true]) ++ mid
    /\ Forall no_lock mid
    /\ os_remove lockfile (env w2) = (env w', None)
    /\ gdriveids w' = gdriveids w2
    /\ log w' = log w2 ++ [EvClose lockfile; EvRemove lockfile].
Proof.
  intros Ht Hm. unfold gdrive_mkdir in Hm. rewrite Ht in Hm. cbn [negb] in Hm.
  apply bind_ok_inv in Hm as (lock & w1 & Hl & Hm).
  apply bind_ok_inv in Hm as (r & w2 & Hw & Hm).
  unfold mutex_lock in Hl. apply bind_ok_inv in Hl as (b & w0 & Hloop & Hl).
  destruct (lock_loop_run (Z.to_nat 60) w) as (k & e1 & Hfails & Hrun).
  destruct Hrun as [(Hk & e2 & Hf & Hrun) | (_ & Hrun)];
    rewrite Hrun in Hloop; injection Hloop as <- <-;
    [|apply bind_ok_inv in Hl as (? & ? & _ & Hl); discriminate Hl].
  injection Hl as <- <-.
  destruct (mkdir_walk_creating_finishes _ _ _ _ _ _ Hw) as [pid ->].
  pose proof (mkdir_walk_extends no_lock ltac:(intros; exact I)
                ltac:(intros; exact I) ltac:(intros; exact I)
                false (Py.split Py.slash dir) "root" ""
                (World e2 (gdriveids w)
                   (log w ++ failed_attempts k ++ [EvFlock lockfile true])))
    as Hext.
  rewrite Hw in Hext. cbn [snd] in Hext.
  destruct Hext as (mid & Hmid & Hall). cbn [log] in Hmid.
  apply bind_ok_inv in Hm as ([] & w3 & Hu & Hm). injection Hm as <- <-.
  unfold mutex_unlock in Hu. apply bind_ok_inv in Hu as ([] & w4 & He & Hu).
  injection He as <-. cbn in Hu.
  destruct (os_remove lockfile (env w2)) as [e' [err|]] eqn:Hrm;
    [discriminate Hu|].
  injection Hu as <-. cbn [log env gdriveids].
  exists k, e1, e2, w2, mid.
  split; [change 60%nat with (Z.to_nat 60); exact Hk|].
  split; [exact Hfails|]. split; [exact Hf|]. split; [exact Hw|].
  split; [exact Hmid|]. split; [exact Hall|]. split; [exact Hrm|].
  split; [reflexivity|]. rewrite <- app_assoc. reflexivity.
Qed.

Lemma lock_loop_not_released n : forall b,
  respects (extends not_released) (@lock_loop E _ n b).
Proof.
  induction n as [|n IH]; intros b; cbn [lock_loop].
  - apply respects_ret; exact _.
  - destruct b; [apply respects_ret; exact _|].
    apply respects_bind; [exact _ | | intros; apply IH].
    intros w. unfold lock_attempt.
    destruct (flock lockfile (env w)) as [e' [|]]; cbn.
    + exists [EvFlock lockfile true]. split; [reflexivity | repeat constructor].
    + exists [EvFlock lockfile false; EvSleep 1].
      split; [rewrite <- app_assoc; reflexivity | repeat constructor].
Qed.

Lemma mutex_lock_not_released wait :
  respects (extends not_released) (@mutex_lock E _ wait).
Proof.
  unfold mutex_lock.
  apply respects_bind; [exact _ | apply lock_loop_not_released |].
  intros [|]; [apply respects_ret; exact _|].
  apply respects_bind; [exact _ | apply extends_emit; exact I |].
  intros; apply respects_exit; exact _.
Qed.

(** X9.  When a [gdrive_mkdir] ends the process (the lock not obtained,
    or a request failed for good during the walk) it has neither closed
    nor removed the lock file: [mutex_unlock] is only reached when the
    walk completes. *)
Theorem gdrive_mkdir_exit_keeps_lock
    (dir : string) (readonly : bool) (w w' : world E) (c : Z) :
  gdrive_mkdir fuel dir readonly w = (Exit c, w') ->
  extends not_released w w'.
Proof.
  intros Hm. unfold gdrive_mkdir in Hm.
  destruct (negb (Py.truthy dir)); [discriminate Hm|].
  set (lock := if readonly then ret "" else mutex_lock 60) in Hm.
  assert (Hlock : respects (extends not_released) lock).
  { subst lock. destruct readonly;
      [apply respects_ret; exact _ | apply mutex_lock_not_released]. }
  pose proof (mkdir_walk_extends not_released ltac:(intros; exact I)
                ltac:(intros; exact I) ltac:(intros; exact I)
                readonly (Py.split Py.slash dir) "root" "") as Hwalk.
  apply bind_exit_inv in Hm as [Hm | (l & w1 & Hl & Hm)].
  { specialize (Hlock w). rewrite Hm in Hlock. exact Hlock. }
  specialize (Hlock w). rewrite Hl in Hlock. cbn [snd] in Hlock.
  apply bind_exit_inv in Hm as [Hm | (r & w2 & Hw & Hm)].
  { specialize (Hwalk w1). rewrite Hm in Hwalk. etransitivity; eassumption. }
  destruct r as [v|pid]; [discriminate Hm|].
  apply bind_exit_inv in Hm as [Hm | (? & ? & _ & Hm)]; [|discriminate Hm].
  destruct readonly; [discriminate Hm|].
  unfold mutex_unlock in Hm.
  apply bind_exit_inv in Hm as [Hm | ([] & w3 & _ & Hm)]; [discriminate Hm|].
  destruct (os_remove lockfile (env w3)) as [e' [err|]]; discriminate Hm.
Qed.

(** X10.  [gdrive_delete] ends with [del gdriveids[gpath]] whatever it
    found: when [os.path.join(folder, name)] is not a key of the cache
    the call cannot return normally. *)
Theorem gdrive_delete_needs_cached_path (folder name : string) (w : world E) :
  gdriveids w !! Py.join folder name = None ->
  fst (gdrive_delete fuel folder name w) <> Ok tt.
Proof. apply gdrive_delete_uncached_never_returns. Qed.

End ResolverMore.

(** ** A walk and the look-up that follows *)

(** A segment that is not empty and has no slash at either end. *)
Definition plain_segment (s : string) : Prop :=
  s <> "" /\ Py.starts_slash s = false /\ Py.ends_slash s = false.

Lemma string_app_assoc (a b c : string) : (a +:+ b) +:+ c = a +:+ b +:+ c.
Proof. induction a as [|x a IH]; [reflexivity | exact (f_equal (String x) IH)]. Qed.

Lemma split_nonempty c r : Py.split c r <> [].
Proof.
  destruct r as [|a r]; cbn; [discriminate|].
  destruct (Ascii.eqb a c); [discriminate|].
  destruct (Py.split c r); discriminate.
Qed.

(** [sep.join(s.split(sep)) == s]. *)
Lemma concat_cons_char a x xs :
  String.concat "/" (String a x :: xs) = String a (String.concat "/" (x :: xs)).
Proof. destruct xs; reflexivity. Qed.

Lemma concat_split r : String.concat "/" (Py.split Py.slash r) = r.
Proof.
  induction r as [|a r IH]; [reflexivity|]. cbn [Py.split].
  pose proof (split_nonempty Py.slash r) as Hne.
  destruct (Ascii.eqb_spec a Py.slash) as [->|Ha];
    (destruct (Py.split Py.slash r) as [|x xs]; [congruence|]).
  - change (String.concat "/" ("" :: x :: xs))
      with (String Py.slash (String.concat "/" (x :: xs))).
    rewrite IH. reflexivity.
  - rewrite concat_cons_char, IH. reflexivity.
Qed.

Lemma ends_slash_cons a x :
  a <> Py.slash -> Py.ends_slash x = false -> Py.ends_slash (String a x) = false.
Proof.
  intros Ha Hx. destruct x as [|b x]; [|exact Hx].
  cbn. apply Ascii.eqb_neq, Ha.
Qed.

Lemma split_no_trailing_slash r :
  Forall (fun s => Py.ends_slash s = false) (Py.split Py.slash r).
Proof.
  induction r as [|a r IH]; cbn [Py.split].
  - repeat constructor.
  - destruct (Ascii.eqb_spec a Py.slash) as [->|Ha].
    + constructor; [reflexivity | exact IH].
    + destruct (Py.split Py.slash r) as [|x xs].
      * repeat constructor. apply Ascii.eqb_neq, Ha.
      * inversion IH; subst. constructor; [|assumption].
        apply ends_slash_cons; assumption.
Qed.

Lemma split_plain_segments r :
  Forall (fun s => s <> "") (Py.split Py.slash r) ->
  Forall plain_segment (Py.split Py.slash r).
Proof.
  intros Hne. pose proof (DriveFacts.split_no_leading_slash r) as Hs.
  pose proof (split_no_trailing_slash r) as He.
  rewrite Forall_forall in *. intros s Hin. repeat split; auto.
Qed.

Lemma append_nonempty a s : s <> "" -> a +:+ s <> "".
Proof. intros Hs. destruct a; [exact Hs | discriminate]. Qed.

Lemma ends_slash_append a s :
  s <> "" -> Py.ends_slash (a +:+ s) = Py.ends_slash s.
Proof.
  intros Hs. induction a as [|x a IH]; [reflexivity|].
  pose proof (append_nonempty a s Hs) as Hne.
  change (String x a +:+ s) with (String x (a +:+ s)).
  destruct (a +:+ s) as [|y t]; [congruence | exact IH].
Qed.

Lemma next_cpath_plain c s :
  plain_segment s ->
  Py.ends_slash c = false ->
  next_cpath c s = (if Py.truthy c then c +:+ "/" +:+ s else s)
  /\ Py.truthy (next_cpath c s) = true
  /\ Py.ends_slash (next_cpath c s) = false.
Proof.
  intros (Hne & Hs & He) Hc. unfold next_cpath, Py.join. rewrite Hs, Hc.
  destruct (Py.truthy c) eqn:Ht; cbn [negb orb].
  - split; [reflexivity|]. split.
    + destruct c; [discriminate Ht | reflexivity].
    + rewrite !ends_slash_append; [exact He | exact Hne |].
      destruct s; [congruence | discriminate].
  - split; [reflexivity|]. split; [|exact He].
    destruct s; [congruence | reflexivity].
Qed.

Lemma cpath_after_concat segs : forall c,
  Forall plain_segment segs ->
  segs <> [] ->
  Py.ends_slash c = false ->
  cpath_after c segs
  = (if Py.truthy c then c +:+ "/" +:+ String.concat "/" segs
     else String.concat "/" segs).
Proof.
  induction segs as [|s rest IH]; intros c Hsegs Hne Hc; [congruence|].
  inversion Hsegs as [|s' r' Hs Hrest]; subst.
  destruct (next_cpath_plain c s Hs Hc) as (Hn & Ht & He).
  unfold cpath_after. cbn [foldl]. fold (cpath_after (next_cpath c s) rest).
  destruct rest as [|t rest].
  - cbn. exact Hn.
  - rewrite IH; [|exact Hrest | discriminate | exact He].
    rewrite Ht, Hn. cbn [String.concat].
    destruct (Py.truthy c); [|reflexivity].
    rewrite !string_app_assoc. reflexivity.
Qed.

(** For a path without empty segment the last cache key of the walk is
    the path itself. *)
Lemma cpath_after_split dir :
  Forall (fun s => s <> "") (Py.split Py.slash dir) ->
  cpath_after "" (Py.split Py.slash dir) = dir.
Proof.
  intros Hne.
  rewrite cpath_after_concat;
    [| apply split_plain_segments, Hne | apply split_nonempty | reflexivity].
  apply concat_split.
Qed.

Section WalkThenFind.
Context {E : Type} `{Env E}.
Variable fuel : nat.

Lemma mkdir_walk_returned readonly subdirs :
  forall pid cpath (w : world E) v w',
  mkdir_walk fuel readonly subdirs pid cpath w = (Ok (Returned v), w') ->
  v = "".
Proof.
  induction subdirs as [|subdir rest IH]; intros pid cpath w v w' Hw;
    cbn [mkdir_walk] in Hw; [discriminate Hw|].
  apply bind_ok_inv in Hw as (hit & w1 & _ & Hw).
  destruct hit as [id|]; [eapply IH, Hw|].
  apply bind_ok_inv in Hw as (out & w2 & _ & Hw).
  destruct (first_id (files_of out)) as [id|].
  - apply bind_ok_inv in Hw as (? & ? & _ & Hw). eapply IH, Hw.
  - destruct readonly; [injection Hw as <- _; reflexivity|].
    apply bind_ok_inv in Hw as (? & ? & _ & Hw).
    apply bind_ok_inv in Hw as (? & ? & _ & Hw). eapply IH, Hw.
Qed.

(** A completed walk has stored the id it ends on under its last key. *)
Lemma mkdir_walk_caches_last readonly subdirs :
  forall pid cpath (w : world E) pid' w',
  subdirs <> [] ->
  mkdir_walk fuel readonly subdirs pid cpath w = (Ok (Finished pid'), w') ->
  gdriveids w' !! cpath_after cpath subdirs = Some pid'.
Proof.
  induction subdirs as [|subdir rest IH]; intros pid cpath w pid' w' Hne Hw;
    [congruence|].
  unfold cpath_after. cbn [foldl]. fold (cpath_after (next_cpath cpath subdir) rest).
  cbn [mkdir_walk] in Hw.
  assert (Hlast : forall id (w0 : world E),
            gdriveids w0 !! next_cpath cpath subdir = Some id ->
            mkdir_walk fuel readonly rest id (next_cpath cpath subdir) w0
              = (Ok (Finished pid'), w') ->
            gdriveids w' !! cpath_after (next_cpath cpath subdir) rest = Some pid').
  { intros id w0 Hc Hr. destruct rest as [|t rest].
    - cbn in Hr. injection Hr as <- <-. exact Hc.
    - eapply IH; [discriminate | exact Hr]. }
  apply bind_ok_inv in Hw as (hit & w1 & Hh & Hw).
  unfold cache_hit in Hh. injection Hh as <- <-.
  destruct (cached w (next_cpath cpath subdir)) as [id|] eqn:Hc.
  { apply (Hlast id w); [|exact Hw]. unfold cached in Hc.
    destruct (gdriveids w !! next_cpath cpath subdir) as [x|]; [|discriminate].
    destruct (Py.truthy x); congruence. }
  apply bind_ok_inv in Hw as (out & w2 & _ & Hw).
  destruct (first_id (files_of out)) as [id|].
  - apply bind_ok_inv in Hw as ([] & w3 & Hs & Hw). injection Hs as <-.
    apply (Hlast id _ (lookup_insert_eq _ _ _) Hw).
  - destruct readonly; [discriminate Hw|].
    apply bind_ok_inv in Hw as (file & w3 & _ & Hw).
    apply bind_ok_inv in Hw as ([] & w4 & Hs & Hw). injection Hs as <-.
    apply (Hlast _ _ (lookup_insert_eq _ _ _) Hw).
Qed.

(** X11.  After [gdrive_mkdir(dir)] (read-only or not) has returned an id
    for a path without empty segment, [gdrive_find(dir)] returns the same
    id from the cache, sending no request and changing nothing. *)
Theorem gdrive_mkdir_then_find
    (dir : string) (readonly : bool) (w w' : world E) (pid : string) :
  Forall (fun s => s <> "") (Py.split Py.slash dir) ->
  gdrive_mkdir fuel dir readonly w = (Ok pid, w') ->
  Py.truthy pid = true ->
  gdrive_find fuel dir w' = (Ok pid, w').
Proof.
  intros Hne Hm Ht.
  assert (Hc : gdriveids w' !! dir = Some pid).
  { unfold gdrive_mkdir in Hm. destruct (negb (Py.truthy dir)) eqn:Hd.
    { destruct dir; [|discriminate Hd]. inversion Hne; congruence. }
    apply bind_ok_inv in Hm as (lock & w1 & _ & Hm).
    apply bind_ok_inv in Hm as (r & w2 & Hw & Hm).
    destruct r as [v|pid0].
    - injection Hm as <- <-. apply mkdir_walk_returned in Hw. subst v.
      discriminate Ht.
    - apply mkdir_walk_caches_last in Hw; [|apply split_nonempty].
      rewrite (cpath_after_split dir Hne) in Hw.
      apply bind_ok_inv in Hm as ([] & w3 & Hu & Hm). injection Hm as <- <-.
      assert (Hsame : gdriveids w3 = gdriveids w2).
      { destruct readonly; [injection Hu as <-; reflexivity|].
        pose proof (mutex_unlock_same_cache lock w2) as Hs.
        rewrite Hu in Hs. exact Hs. }
      rewrite Hsame. exact Hw. }
  unfold gdrive_find, bind, cache_hit, cached. rewrite Hc, Ht. reflexivity.
Qed.

End WalkThenFind.

(** ** [gdrive_command_simple] *)

Section CommandMore.
Context {E : Type} `{Env E}.
Variable fuel : nat.

(** X12.  ['delete'] is the only command of [gdrive_command_simple] that
    changes the remote tree: with any other command name, known or not,
    every request sent is a listing and the lock is never taken. *)
Theorem gdrive_command_simple_only_delete_deletes
    (cmd gpath : string) (w : world E) :
  cmd <> "delete" ->
  extends lists_only w (snd (gdrive_command_simple fuel cmd gpath w)).
Proof. intros Hcmd. apply gdrive_command_simple_lists_only, Hcmd. Qed.

(** A [delete] that returns has sent its request last. *)
Lemma delete_returns_sent i : forall n retry (w : world E) v w',
  google_api_command n (CmdDelete i) retry w = (Ok v, w') ->
  exists pre, log w' = pre ++ [EvRequest (FilesDelete i)].
Proof.
  induction n as [|n IH]; intros retry w v w' Hg; [discriminate Hg|].
  cbn [google_api_command attempt] in Hg. unfold try_except, bind, remote in Hg.
  destruct (execute (FilesDelete i) (env w)) as [e' [err|res]]; cbn in Hg.
  - unfold on_error in Hg. destruct (10 <=? retry)%nat; [discriminate Hg|].
    unfold bind in Hg. rewrite wait_before_retry_run in Hg. eapply IH, Hg.
  - injection Hg as _ <-. cbn. eauto.
Qed.

(** X13.  [gdrive_command_simple('delete', gpath)] deletes the object but
    not its cache entry: when it returns [True], the delete request for
    the resolved id has been sent, [gdriveids] still maps the path to
    that id, and a later [gdrive_find(gpath)] returns the id of the
    deleted object without asking the service. *)
Theorem gdrive_command_simple_delete_keeps_cache
    (gpath : string) (w w' : world E) :
  gdrive_command_simple fuel "delete" gpath w = (Ok true, w') ->
  exists gid,
    Py.truthy gid = true
    /\ (exists pre, log w' = pre ++ [EvRequest (FilesDelete gid)])
    /\ gdriveids w' !! gpath = Some gid
    /\ gdrive_find fuel gpath w' = (Ok gid, w').
Proof.
  intros Hc. unfold gdrive_command_simple in Hc.
  apply bind_ok_inv in Hc as ([] & w0 & Hd & Hc).
  unfold disallow in Hc, Hd. cbn in Hd. injection Hd as <-.
  apply bind_ok_inv in Hc as (gid & w1 & Hf & Hc).
  destruct (Py.truthy gid) eqn:Ht; cbn [negb] in Hc.
  2:{ apply bind_ok_inv in Hc as (? & ? & _ & Hc). discriminate Hc. }
  apply bind_ok_inv in Hc as ([] & w2 & Hdel & Hc). injection Hc as <-.
  cbn in Hdel. apply bind_ok_inv in Hdel as (v & w3 & Hg & Hdel).
  injection Hdel as <-.
  pose proof (gdrive_find_found_cached fuel _ _ _ _ Hf Ht) as Hcached.
  pose proof (google_api_command_same_cache fuel (CmdDelete gid) 0 w1) as Hs.
  rewrite Hg in Hs. cbn in Hs. unfold same_cache in Hs.
  exists gid. split; [exact Ht|]. split; [eapply delete_returns_sent, Hg|].
  split; [rewrite Hs; exact Hcached|].
  unfold gdrive_find, bind, cache_hit, cached. rewrite Hs, Hcached, Ht.
  reflexivity.
Qed.

Lemma with_keys_missing (k : string) (l : list item) (w : world E) :
  (exists it, it ∈ l /\ it !! k = None) ->
  with_keys (fun it => item_get it k) l w
  = (Raise ("KeyError: '" +:+ k +:+ "'"), w).
Proof.
  induction l as [|x l IH]; intros (it & Hin & Hk).
  - apply elem_of_nil in Hin. destruct Hin.
  - cbn [with_keys]. unfold bind at 1. unfold item_get at 1.
    destruct (x !! k) as [v|] eqn:Hx; [|reflexivity].
    cbn [ret]. unfold bind at 1. rewrite IH; [reflexivity|].
    apply elem_of_cons in Hin as [->|Hin]; [congruence|]. eauto.
Qed.

(** X14.  The ['files'] and ['clear'] listing sorts by [createdTime]
    before it prints any file: when one of the listed files has no
    [createdTime], the branch raises the [KeyError] right after the
    separator line, having printed no file (and deleted none). *)
Theorem files_branch_needs_created_time
    (cmd gid : string) (w w1 : world E) (v : value) :
  google_api_command fuel
    (CmdList (QFilesIn fmime gid) (Some "id,name,createdTime,mimeType") None) 0 w
    = (Ok v, w1) ->
  (exists it, it ∈ files_of v /\ it !! "createdTime" = None) ->
  files_branch fuel cmd gid w
  = (Raise "KeyError: 'createdTime'",
     World (env w1) (gdriveids w1) (log w1 ++ [EvPrint sep])).
Proof.
  intros Hl Hmiss. unfold files_branch. unfold bind at 1. rewrite Hl.
  unfold bind at 1. cbn [print emit]. unfold bind at 1.
  rewrite (with_keys_missing "createdTime" _ _ Hmiss). reflexivity.
Qed.

End CommandMore.

(** ** [getfile] *)

Section Getfile.

(** [os.path.exists], and the two directories [getfile] derives from
    [__file__]: the directory of the module and its parent. *)
Variable path_exists : string -> bool.
Variables dir pdir : string.

(** The [for d in [pdir, dir]] of [getfile]. *)
Fixpoint getfile_loop (ds : list string) (file : string) : string :=
  match ds with
  | [] => ""
  | d :: rest =>
      if path_exists (d +:+ "/" +:+ file) then d +:+ "/" +:+ file
      else if path_exists (d +:+ "/config/" +:+ file)
           then d +:+ "/config/" +:+ file
           else getfile_loop rest file
  end.

(** [getfile(file)]. *)
Definition getfile (file : string) : string :=
  if path_exists file then file else getfile_loop [pdir; dir] file.

(** The places [getfile] looks at, in its order. *)
Definition getfile_places (file : string) : list string :=
  [file; pdir +:+ "/" +:+ file; pdir +:+ "/config/" +:+ file;
   dir +:+ "/" +:+ file; dir +:+ "/config/" +:+ file].

(** X15.  [getfile(file)] returns the first existing path among [file],
    [pdir/file], [pdir/config/file], [dir/file] and [dir/config/file], in
    this order, and [''] when none exists; so a result other than ['']
    always exists. *)
Theorem getfile_first_existing (file : string) :
  getfile file = default "" (List.find path_exists (getfile_places file))
  /\ (getfile file <> "" -> path_exists (getfile file) = true)
  /\ ((forall p, p ∈ getfile_places file -> path_exists p = false) ->
      getfile file = "").
Proof.
  assert (Heq : getfile file
                = default "" (List.find path_exists (getfile_places file))).
  { unfold getfile, getfile_places. cbn [getfile_loop List.find].
    repeat (match goal with |- context [path_exists ?p] =>
              destruct (path_exists p) eqn:?; cbn [default] end);
      reflexivity. }
  split; [exact Heq|]. split.
  - rewrite Heq. destruct (List.find path_exists (getfile_places file)) as [p|] eqn:Hf;
      cbn [default]; [|congruence].
    intros _. apply List.find_some in Hf. apply Hf.
  - intros Hnone. rewrite Heq.
    destruct (List.find path_exists (getfile_places file)) as [p|] eqn:Hf;
      [|reflexivity].
    apply List.find_some in Hf as [Hin Hp].
    rewrite (Hnone p) in Hp; [discriminate | apply list_elem_of_In, Hin].
Qed.

End Getfile.

(** ** Look-ups and what is not found *)

Section LookupMore.
Context {E : Type} `{Env E}.
Variable fuel : nat.

(** X20.  A [gdrive_find] is a pure look-up: whatever the path, the
    cache and the service, it sends nothing but listings and never
    touches the lock. *)
Theorem gdrive_find_only_lists (gpath : string) (w : world E) :
  extends lists_only w (snd (gdrive_find fuel gpath w)).
Proof. apply gdrive_find_lists_only. Qed.

(** X21.  [gdrive_command_simple] returns [False] only for a path that
    [gdrive_find] does not resolve: it then prints the error line right
    after the look-up and does nothing else. *)
Theorem gdrive_command_simple_not_found (cmd gpath : string) (w w' : world E) :
  gdrive_command_simple fuel cmd gpath w = (Ok false, w') ->
  exists gid w1,
    gdrive_find fuel gpath w = (Ok gid, w1)
    /\ Py.truthy gid = false
    /\ w' = World (env w1) (gdriveids w1)
              (log w1 ++ [EvPrint "ERROR: File not found on google drive"]).
Proof.
  intros Hc. unfold gdrive_command_simple in Hc.
  apply bind_ok_inv in Hc as ([] & w0 & Hd & Hc).
  unfold disallow in Hd. destruct (String.eqb cmd "gclear").
  { apply bind_ok_inv in Hd as (? & ? & _ & Hd). discriminate Hd. }
  injection Hd as <-.
  apply bind_ok_inv in Hc as (gid & w1 & Hf & Hc).
  exists gid, w1. split; [exact Hf|].
  destruct (Py.truthy gid); cbn [negb] in Hc.
  - apply bind_ok_inv in Hc as (? & ? & _ & Hc). discriminate Hc.
  - split; [reflexivity|]. cbn in Hc. injection Hc as <-. reflexivity.
Qed.

End LookupMore.

(** ** More runs against the Drive *)

Module DriveMore.
Import Drive DriveFacts.

(** X16.  On the Drive, with nothing scripted to fail, [gdrive_find]
    always returns a string, whatever the tree and the cache, and leaves
    the tree exactly as it is: a look-up has no effect on the service. *)
Theorem drive_find_is_read_only
    (fuel : nat) (gpath : string) (objs : list gobject) (k b : nat) (p g : Z)
    (c : gmap string string) (lg : list event) :
  exists v c' lg',
    gdrive_find (S fuel) gpath (World (State objs k [] b p g) c lg)
    = (Ok v, World (State objs k [] b p g) c' lg').
Proof. apply drive_find_returns. Qed.

(** *** Finding folders that exist *)

(** The first folder named [name] the service lists under [parent]: the
    first object of the tree that is an untrashed folder of that name
    with [parent] among its parents. *)
Definition first_folder (objs : list gobject) (parent name : string)
  : option string :=
  match List.filter (matches (QFolderNamed fmime parent name)) objs with
  | o :: _ => Some (o_id o)
  | [] => None
  end.

(** The folders reached from [parent] by taking, for each segment, the
    first folder of that name listed under the folder reached so far;
    [None] as soon as a listing is empty. *)
Fixpoint first_listed (objs : list gobject) (parent : string)
    (segs : list string) : option (list string) :=
  match segs with
  | [] => Some []
  | s :: r =>
      match first_folder objs parent s with
      | Some id =>
          match first_listed objs id r with
          | Some ids => Some (id :: ids)
          | None => None
          end
      | None => None
      end
  end.

(** The requests of a walk that finds every folder: one listing each. *)
Fixpoint found_log (parent : string) (segs ids : list string) : list event :=
  match segs, ids with
  | s :: r, id :: ids' =>
      EvRequest (FilesList (QFolderNamed fmime parent s) (fsel None) None)
        :: found_log id r ids'
  | _, _ => []
  end.

(** The cache entries of that walk: every prefix, under the id found. *)
Fixpoint found_cache (cpath : string) (segs ids : list string)
    (m : gmap string string) : gmap string string :=
  match segs, ids with
  | s :: r, id :: ids' =>
      found_cache (next_cpath cpath s) r ids' (<[next_cpath cpath s := id]> m)
  | _, _ => m
  end.

Lemma first_id_first_folder (objs : list gobject) (parent name : string) :
  first_id (map to_item
              (List.filter (matches (QFolderNamed fmime parent name)) objs))
  = first_folder objs parent name.
Proof.
  unfold first_folder.
  destruct (List.filter (matches (QFolderNamed fmime parent name)) objs)
    as [|o l]; [reflexivity|].
  cbn [map first_id]. unfold to_item. apply lookup_insert_eq.
Qed.

Lemma last_cons_default {A : Type} (l : list A) : forall a d : A,
  List.last (a :: l) d = List.last l a.
Proof.
  induction l as [|x l IH]; intros a d; [reflexivity|].
  change (List.last (a :: x :: l) d) with (List.last (x :: l) d).
  rewrite !IH. reflexivity.
Qed.

Lemma mkdir_walk_finds fuel readonly objs K b p g segs :
  forall ids parent cpath (c : gmap string string) lg,
  NoDup (prefixes cpath segs) ->
  (forall key, key ∈ prefixes cpath segs -> c !! key = None) ->
  first_listed objs parent segs = Some ids ->
  mkdir_walk (S fuel) readonly segs parent cpath
    (World (State objs K [] b p g) c lg)
  = (Ok (Finished (List.last ids parent)),
     World (State objs K [] b p g)
       (found_cache cpath segs ids c) (lg ++ found_log parent segs ids)).
Proof.
  induction segs as [|s r IH]; intros ids parent cpath c lg Hnd Hc Hfl.
  - injection Hfl as <-. cbn. rewrite app_nil_r. reflexivity.
  - cbn [first_listed] in Hfl.
    destruct (first_folder objs parent s) as [id|] eqn:Hff; [|discriminate Hfl].
    destruct (first_listed objs id r) as [ids'|] eqn:Hrest; [|discriminate Hfl].
    injection Hfl as <-.
    cbn [prefixes] in Hnd, Hc. apply NoDup_cons in Hnd as [Hnotin Hnd].
    cbn [mkdir_walk found_cache found_log].
    unfold bind at 1. unfold cache_hit, cached. cbn [gdriveids].
    rewrite (Hc _ ltac:(left)).
    unfold bind at 1. rewrite drive_list. cbn [files_of].
    rewrite first_id_first_folder, Hff.
    unfold bind at 1. cbn [cache_set env gdriveids log].
    rewrite (IH ids' id); [|exact Hnd | | exact Hrest].
    + rewrite last_cons_default, <- !app_assoc. reflexivity.
    + intros key Hk. rewrite lookup_insert_ne.
      * apply Hc. right. exact Hk.
      * intros <-. contradiction.
Qed.

(** X17.  [gdrive_mkdir] finds the folders that already exist, taking
    the first one listed at each step.  On the Drive, with the lock free
    and the cache empty, when every segment of [dir] names a folder the
    service lists under the folder reached so far (the first one listed
    being the one followed), [gdrive_mkdir(dir)] sends one listing per
    segment and no create, leaves the tree as it is, caches every prefix
    under the id followed and returns the id reached last. *)
Theorem gdrive_mkdir_finds_existing_chain
    (fuel : nat) (dir : string) (objs : list gobject) (ids : list string)
    (K : nat) (p g : Z) (lg : list event) :
  dir <> "" ->
  NoDup (prefixes "" (Py.split Py.slash dir)) ->
  first_listed objs "root" (Py.split Py.slash dir) = Some ids ->
  let segs := Py.split Py.slash dir in
  let st := State objs K [] 0 p g in
  gdrive_mkdir (S fuel) dir false (World st ∅ lg)
  = (Ok (List.last ids "root"),
     World st (found_cache "" segs ids ∅)
       (lg ++ EvFlock lockfile true
           :: found_log "root" segs ids
           ++ [EvClose lockfile; EvRemove lockfile])).
Proof.
  intros Hne Hnd Hfl segs st. fold segs in Hnd, Hfl.
  assert (Hdir : Py.truthy dir = true) by (destruct dir; [congruence | reflexivity]).
  unfold gdrive_mkdir. rewrite Hdir. cbn [negb].
  unfold bind at 1. subst st. rewrite drive_lock.
  unfold bind at 1. fold segs.
  rewrite (mkdir_walk_finds fuel false objs K 0%nat p g segs ids "root" "" ∅);
    [|exact Hnd | | exact Hfl].
  - unfold bind at 1. rewrite drive_unlock. cbn [app ret].
    rewrite <- !app_assoc. reflexivity.
  - intros key _. apply lookup_empty.
Qed.

(** Two folders named [a] under the root, the one that holds [b] listed
    first. *)
Definition two_named_a : list gobject :=
  [GObject "id0" "a" fmime ["root"] false "";
   GObject "id1" "b" fmime ["id0"] false "";
   GObject "id7" "a" fmime ["root"] false ""].

(** The walk follows the [a] listed first, [id0], and finds [b] under
    it. *)
Lemma gdrive_mkdir_finds_existing_chain_witness :
  let st := State two_named_a 8 [] 0 1 1 in
  gdrive_mkdir 1 "a/b" false (start st)
  = (Ok "id1",
     World st (<["a/b" := "id1"]> (<["a" := "id0"]> ∅))
       [EvFlock lockfile true;
        EvRequest (FilesList (QFolderNamed fmime "root" "a") (fsel None) None);
        EvRequest (FilesList (QFolderNamed fmime "id0" "b") (fsel None) None);
        EvClose lockfile; EvRemove lockfile]).
Proof.
  assert (Hne : Forall (fun s => s <> "") (Py.split Py.slash "a/b")).
  { vm_compute. repeat (constructor; [discriminate|]). constructor. }
  assert (Hfl : first_listed two_named_a "root" (Py.split Py.slash "a/b")
                = Some ["id0"; "id1"]) by reflexivity.
  cbv zeta. unfold start.
  rewrite (gdrive_mkdir_finds_existing_chain 0 "a/b" two_named_a
             ["id0"; "id1"] 8 1 1 []
             ltac:(discriminate) (split_prefixes_nodup _ Hne) Hfl).
  reflexivity.
Defined.

(** When the folder listed first lacks the next segment, the walk does
    not look under its namesake: with [id7] listed before [id0], a new
    [b] is created under [id7] though [a/b] exists under [id0]. *)
Example gdrive_mkdir_follows_first_listed :
  let st := State [GObject "id7" "a" fmime ["root"] false "";
                   GObject "id0" "a" fmime ["root"] false "";
                   GObject "id1" "b" fmime ["id0"] false ""] 8 [] 0 1 1 in
  let r := gdrive_mkdir 1 "a/b" false (start st) in
  first_listed (objects st) "root" (Py.split Py.slash "a/b") = None
  /\ fst r = Ok "id8"
  /\ objects (env (snd r))
     = objects st ++ [GObject "id8" "b" fmime ["id7"] false ""].
Proof. cbv zeta. repeat split; vm_compute; reflexivity. Qed.

(** *** Deleting what a listing found *)

(** What the loop of [gdrive_delete] prints and sends for the objects
    found. *)
Definition delete_log (found : list gobject) : list event :=
  flat_map (fun o =>
    [EvPrint ("deleting duplicate - " +:+ o_name o +:+ " (" +:+ o_id o +:+ ")");
     EvRequest (FilesDelete (o_id o))]) found.

(** The tree without the objects whose id is among [ids]. *)
Definition without (ids : list string) (objs : list gobject) : list gobject :=
  List.filter (fun o => negb (bool_decide (o_id o ∈ ids))) objs.

Lemma drive_delete fuel i retry objs k b p g c lg :
  existsb (has_id i) objs = true ->
  google_api_command (S fuel) (CmdDelete i) retry
    (World (State objs k [] b p g) c lg)
  = (Ok (VResponse empty_response),
     World (State (List.filter (fun o => negb (has_id i o)) objs) k [] b p g) c
       (lg ++ [EvRequest (FilesDelete i)])).
Proof.
  intros Hx. cbn [google_api_command attempt]. unfold try_except, bind, remote.
  cbn. rewrite Hx. reflexivity.
Qed.

Lemma to_item_name o : to_item o !! "name" = Some (o_name o).
Proof. reflexivity. Qed.

Lemma to_item_id o : to_item o !! "id" = Some (o_id o).
Proof. reflexivity. Qed.

Lemma without_cons i ids objs :
  without (i :: ids) objs
  = without ids (List.filter (fun o => negb (has_id i o)) objs).
Proof.
  unfold without. induction objs as [|o objs IH]; [reflexivity|].
  cbn [List.filter]. unfold has_id at 1.
  destruct (String.eqb_spec (o_id o) i) as [Heq|Hne]; cbn [negb].
  - rewrite bool_decide_eq_true_2 by (rewrite Heq; left). cbn [negb]. exact IH.
  - cbn [List.filter].
    destruct (bool_decide (o_id o ∈ ids)) eqn:Hd.
    + rewrite bool_decide_eq_true_2
        by (right; apply bool_decide_eq_true in Hd; exact Hd).
      cbn [negb]. exact IH.
    + rewrite bool_decide_eq_false_2.
      * cbn [negb]. f_equal. exact IH.
      * apply bool_decide_eq_false in Hd. intros Hin.
        apply elem_of_cons in Hin as [Heq|Hin]; [congruence | contradiction].
Qed.

Lemma existsb_has_id o (objs : list gobject) :
  o ∈ objs -> existsb (has_id (o_id o)) objs = true.
Proof.
  intros Hin. apply existsb_exists. exists o.
  split; [apply list_elem_of_In, Hin | apply String.eqb_refl].
Qed.

Lemma delete_loop_run fuel (found : list gobject) :
  forall cur k b p g (c : gmap string string) lg,
  NoDup (map o_id found) ->
  (forall o, o ∈ found -> o ∈ cur) ->
  for_each (map to_item found) (fun it =>
    nm <- item_get it "name" ;;
    id <- item_get it "id" ;;
    print ("deleting duplicate - " +:+ nm +:+ " (" +:+ id +:+ ")") ;;;
    id <- item_get it "id" ;;
    _ <- google_api_command (S fuel) (CmdDelete id) O ;;
    ret tt) (World (State cur k [] b p g) c lg)
  = (Ok tt,
     World (State (without (map o_id found) cur) k [] b p g) c
       (lg ++ delete_log found)).
Proof.
  induction found as [|o found IH]; intros cur k b p g c lg Hnd Hsub.
  - cbn. unfold without. rewrite app_nil_r. f_equal. f_equal. f_equal.
    symmetry. apply forallb_filter_id. apply forallb_forall. reflexivity.
  - cbn [map] in Hnd. apply NoDup_cons in Hnd as [Hnotin Hnd].
    cbn [map for_each]. unfold bind at 1. unfold bind at 1.
    unfold item_get at 1. rewrite to_item_name. cbn [ret].
    unfold bind at 1. unfold item_get at 1. rewrite to_item_id. cbn [ret].
    unfold bind at 1. cbn [print emit env gdriveids log].
    unfold bind at 1. unfold item_get at 1. rewrite to_item_id. cbn [ret].
    unfold bind at 1.
    rewrite drive_delete by (apply existsb_has_id, Hsub; left).
    cbn [ret]. rewrite IH; [|exact Hnd|].
    + rewrite without_cons. cbn [delete_log flat_map].
      rewrite <- !app_assoc. reflexivity.
    + intros o' Ho'. apply list_elem_of_In, List.filter_In. split.
      * apply list_elem_of_In, Hsub. right. exact Ho'.
      * unfold has_id. destruct (String.eqb_spec (o_id o') (o_id o)) as [Heq|];
          [|reflexivity].
        destruct Hnotin. rewrite <- Heq. apply list_elem_of_In, in_map,
          list_elem_of_In, Ho'.
Qed.

Lemma same_id_same_object (objs : list gobject) o o' :
  NoDup (map o_id objs) -> o ∈ objs -> o' ∈ objs -> o_id o = o_id o' -> o = o'.
Proof.
  intros Hnd Ho Ho' Hid.
  apply list_elem_of_lookup in Ho as [i Hi].
  apply list_elem_of_lookup in Ho' as [j Hj].
  assert (Hi' : map o_id objs !! i = Some (o_id o))
    by (rewrite list_lookup_fmap, Hi; reflexivity).
  assert (Hj' : map o_id objs !! j = Some (o_id o))
    by (rewrite list_lookup_fmap, Hj, Hid; reflexivity).
  pose proof (NoDup_lookup _ _ _ _ Hnd Hi' Hj') as ->. congruence.
Qed.

Lemma without_matches q (objs : list gobject) :
  NoDup (map o_id objs) ->
  without (map o_id (List.filter (matches q) objs)) objs
  = List.filter (fun o => negb (matches q o)) objs.
Proof.
  intros Hnd. unfold without. apply List.filter_ext_in. intros o Ho.
  apply list_elem_of_In in Ho. f_equal.
  destruct (matches q o) eqn:Hm.
  - apply bool_decide_eq_true_2, list_elem_of_In, in_map, List.filter_In.
    split; [apply list_elem_of_In, Ho | exact Hm].
  - apply bool_decide_eq_false_2. intros Hin.
    apply list_elem_of_In, in_map_iff in Hin as (o' & Hid & Hin').
    apply List.filter_In in Hin' as [Hin' Hm'].
    assert (o' = o).
    { apply (same_id_same_object objs); [exact Hnd | | exact Ho | exact Hid].
      apply list_elem_of_In, Hin'. }
    congruence.
Qed.

Lemma NoDup_map_filter {A B} (f : A -> B) (P : A -> bool) (l : list A) :
  NoDup (map f l) -> NoDup (map f (List.filter P l)).
Proof.
  induction l as [|x l IH]; intros Hnd; [constructor|].
  cbn [map] in Hnd. apply NoDup_cons in Hnd as [Hx Hnd].
  cbn [List.filter]. destruct (P x); [|apply IH, Hnd].
  cbn [map]. apply NoDup_cons. split; [|apply IH, Hnd].
  intros Hin. apply Hx. apply list_elem_of_In, in_map_iff in Hin as (y & Hy & Hin).
  apply List.filter_In in Hin as [Hin _].
  rewrite <- Hy. apply list_elem_of_In, in_map, Hin.
Qed.

(** X18.  On the Drive, where ids are unique, a [gdrive_delete(folder,
    name)] whose path [os.path.join(folder, name)] is cached deletes
    every untrashed object named [name] under the id [folder] and no
    other, one request each in the order of the listing, removes the
    cache entry and returns; afterwards nothing is found there. *)
Theorem gdrive_delete_removes_all
    (fuel : nat) (folder name : string) (objs : list gobject) (k b : nat)
    (p g : Z) (c : gmap string string) (lg : list event) :
  NoDup (map o_id objs) ->
  is_Some (c !! Py.join folder name) ->
  let q := QNamed folder name in
  let objs' := List.filter (fun o => negb (matches q o)) objs in
  gdrive_delete (S fuel) folder name (World (State objs k [] b p g) c lg)
  = (Ok tt,
     World (State objs' k [] b p g) (delete (Py.join folder name) c)
       (lg ++ EvRequest (FilesList q (fsel None) None)
           :: delete_log (List.filter (matches q) objs)))
  /\ List.filter (matches q) objs' = [].
Proof.
  intros Hnd [v Hv] q objs'. split.
  - unfold gdrive_delete. unfold bind at 1. rewrite drive_get. fold q.
    unfold bind at 1.
    rewrite (delete_loop_run fuel (List.filter (matches q) objs));
      [| apply NoDup_map_filter, Hnd
       | intros o Ho; apply list_elem_of_In; apply list_elem_of_In in Ho;
         apply List.filter_In in Ho; apply Ho].
    rewrite (without_matches q objs Hnd). fold objs'.
    unfold cache_del. cbn [gdriveids]. rewrite Hv. cbn [env log].
    rewrite <- app_assoc. reflexivity.
  - subst objs'. induction objs as [|o objs IH]; [reflexivity|].
    cbn [map] in Hnd. apply NoDup_cons in Hnd as [_ Hnd].
    cbn [List.filter]. destruct (matches q o) eqn:Hm; cbn [negb].
    + apply IH, Hnd.
    + cbn [List.filter]. rewrite Hm. apply IH, Hnd.
Qed.

Lemma gdrive_delete_removes_all_witness :
  let st := State [GObject "id0" "x" "text/plain" ["root"] false "";
                   GObject "id1" "y" "text/plain" ["root"] false "";
                   GObject "id2" "x" "text/csv" ["root"] false ""] 3 [] 0 1 1 in
  let r := gdrive_delete 1 "root" "x" (World st {["root/x" := "id0"]} []) in
  fst r = Ok tt
  /\ objects (env (snd r)) = [GObject "id1" "y" "text/plain" ["root"] false ""]
  /\ gdriveids (snd r) !! "root/x" = None
  /\ sent (log (snd r))
     = [FilesList (QNamed "root" "x") (fsel None) None;
        FilesDelete "id0"; FilesDelete "id2"].
Proof.
  cbv zeta.
  destruct (gdrive_delete_removes_all 0 "root" "x"
              [GObject "id0" "x" "text/plain" ["root"] false "";
               GObject "id1" "y" "text/plain" ["root"] false "";
               GObject "id2" "x" "text/csv" ["root"] false ""] 3 0 1 1
              {["root/x" := "id0"]} []) as [H1 _].
  - apply (bool_decide_unpack _). vm_compute. exact I.
  - exists "id0". reflexivity.
  - rewrite H1. repeat split; vm_compute; reflexivity.
Defined.

(** *** The probe of [gdrive_backup] ends *)

Lemma pretty_N_go_nonempty x : forall s, s <> "" -> pretty_N_go x s <> "".
Proof.
  induction (N.lt_wf_0 x) as [x _ IH]. intros s Hs.
  destruct (decide (x = 0)%N) as [->|Hx]; [rewrite pretty_N_go_0; exact Hs|].
  rewrite pretty_N_go_step by lia.
  apply IH; [apply N.div_lt; lia | discriminate].
Qed.

Lemma pretty_nat_nonempty (n : nat) : pretty n <> "".
Proof.
  unfold pretty, pretty_nat, pretty, pretty_N.
  destruct (decide (N.of_nat n = 0)%N); [discriminate|].
  rewrite pretty_N_go_step by lia. apply pretty_N_go_nonempty. discriminate.
Qed.

Lemma append_inj_r (a b c : string) : a +:+ b = a +:+ c -> b = c.
Proof. induction a as [|x a IH]; [auto|]. intros [= Hbc]. auto. Qed.

Lemma bak_suffix_inj i j : bak_suffix i = bak_suffix j -> i = j.
Proof.
  destruct i as [|i], j as [|j]; cbn [bak_suffix]; intros Heq;
    [reflexivity | | |].
  - change ".bak" with (".bak" +:+ "") in Heq at 1.
    apply append_inj_r in Heq. symmetry in Heq.
    destruct (pretty_nat_nonempty _ Heq).
  - change ".bak" with (".bak" +:+ "") in Heq at 2.
    apply append_inj_r in Heq. destruct (pretty_nat_nonempty _ Heq).
  - apply append_inj_r in Heq. exact (inj pretty _ _ Heq).
Qed.

Lemma taken_name objs bfid nm :
  taken objs bfid nm = true -> nm ∈ map o_name objs.
Proof.
  unfold taken. intros Ht. apply existsb_exists in Ht as (o & Hin & Hm).
  unfold matches in Hm. apply andb_prop in Hm as [_ Hm].
  apply andb_prop in Hm as [_ Hm]. apply String.eqb_eq in Hm. subst nm.
  apply list_elem_of_In, in_map, Hin.
Qed.

(** Some suffix among the first [length objs + 1] is free. *)
Lemma free_suffix_exists objs bfid name :
  exists j, (j <= length objs)%nat
            /\ taken objs bfid (name +:+ bak_suffix j) = false.
Proof.
  destruct (List.find (fun j => negb (taken objs bfid (name +:+ bak_suffix j)))
              (seq 0 (S (length objs)))) as [j|] eqn:Hf.
  - apply List.find_some in Hf as [Hin Hj]. apply in_seq in Hin.
    exists j. split; [lia|]. apply negb_true_iff, Hj.
  - exfalso.
    set (names := map (fun j => name +:+ bak_suffix j) (seq 0 (S (length objs)))).
    assert (Hnd : NoDup names).
    { apply (NoDup_fmap_2_strong _); [|apply NoDup_ListNoDup, seq_NoDup].
      intros i j _ _ Heq. apply append_inj_r, bak_suffix_inj in Heq. exact Heq. }
    assert (Hsub : forall x, x ∈ names -> x ∈ map o_name objs).
    { intros x Hx. apply list_elem_of_fmap in Hx as (j & -> & Hj).
      apply (taken_name objs bfid).
      pose proof (List.find_none _ _ Hf j (proj1 (list_elem_of_In _ _) Hj)) as Hn.
      apply negb_false_iff, Hn. }
    pose proof (submseteq_length _ _ (NoDup_submseteq _ _ Hnd Hsub)) as Hlen.
    subst names. rewrite !length_map, length_seq in Hlen. lia.
Qed.

Lemma least_free (f : nat -> bool) : forall N,
  (exists j, (j <= N)%nat /\ f j = false) ->
  exists n, (n <= N)%nat /\ f n = false /\ forall j, (j < n)%nat -> f j = true.
Proof.
  induction N as [|N IH]; intros (j & Hj & Hf).
  - exists O. assert (j = 0)%nat as -> by lia.
    split; [lia|]. split; [exact Hf | intros; lia].
  - destruct (List.existsb (fun i => negb (f i)) (seq 0 (S N))) eqn:He.
    + apply existsb_exists in He as (i & Hin & Hi). apply in_seq in Hin.
      apply negb_true_iff in Hi.
      destruct IH as (n & Hn & Hfn & Hlt); [exists i; split; [lia | exact Hi]|].
      exists n. split; [lia | auto].
    + exists (S N). assert (Hall : forall i, (i <= N)%nat -> f i = true).
      { intros i Hi. destruct (f i) eqn:Hfi; [reflexivity|].
        assert (existsb (fun i => negb (f i)) (seq 0 (S N)) = true).
        { apply existsb_exists. exists i. split; [apply in_seq; lia|].
          rewrite Hfi. reflexivity. }
        congruence. }
      assert (j = S N) as ->.
      { destruct (Nat.eq_dec j (S N)); [assumption|].
        rewrite Hall in Hf by lia. discriminate. }
      split; [lia|]. split; [exact Hf|]. intros i Hi. apply Hall. lia.
Qed.

(** X19.  On the Drive the [while] of [gdrive_backup] always ends: with
    room for one more turn than the tree has objects it stops at the
    first free suffix, the [n]-th with [n] at most the number of objects,
    after [n + 1] listings. *)
Theorem backup_probe_terminates
    (fuel m : nat) (bfid name : string) (objs : list gobject) (k b : nat)
    (p g : Z) (c : gmap string string) (lg : list event) :
  (length objs < m)%nat ->
  exists n,
    (n <= length objs)%nat
    /\ taken objs bfid (name +:+ bak_suffix n) = false
    /\ (forall j, (j < n)%nat -> taken objs bfid (name +:+ bak_suffix j) = true)
    /\ backup_probe (S fuel) m bfid name 0 (World (State objs k [] b p g) c lg)
       = (Ok (bak_suffix n),
          World (State objs k [] b p g) c (lg ++ probe_log bfid name 0 (S n))).
Proof.
  intros Hm.
  destruct (least_free (fun j => taken objs bfid (name +:+ bak_suffix j))
              (length objs) (free_suffix_exists objs bfid name))
    as (n & Hn & Hfree & Htaken).
  exists n. split; [exact Hn|]. split; [exact Hfree|]. split; [exact Htaken|].
  apply (backup_probe_run fuel bfid name objs k b p g c n m 0 lg);
    [lia | exact Htaken | exact Hfree].
Qed.

Lemma backup_probe_terminates_witness :
  exists n,
    (n <= 4)%nat
    /\ backup_probe 1 5 "id2" "f" 0 (start backup_tree)
       = (Ok (bak_suffix n),
          World backup_tree ∅ (probe_log "id2" "f" 0 (S n))).
Proof.
  destruct (backup_probe_terminates 0 5 "id2" "f" (objects backup_tree) 4 0
              4242 4242 ∅ []) as (n & Hn & _ & _ & Hrun).
  - cbn. lia.
  - exists n. split; [exact Hn | exact Hrun].
Defined.

(** *** Worked runs *)

Lemma google_api_command_bounded_wait_witness :
  let r := google_api_command 11 (CmdDelete "x") 0 (start (failing 11)) in
  fst r <> OutOfFuel
  /\ exists evs,
       log (snd r) = [] ++ evs
       /\ (length (slept evs) <= 10)%nat
       /\ Forall (fun d => 3 <= d <= 15) (slept evs)
       /\ foldr Z.add 0 (slept evs) <= 150.
Proof.
  exact (google_api_command_bounded_wait (CmdDelete "x") 11 (start (failing 11))
           eq_refl (le_n 11)).
Defined.

Lemma gdrive_find_again_witness :
  let w' := snd (gdrive_find 1 "a" (start tree_a)) in
  gdrive_find 1 "a" w' = (Ok "id0", w').
Proof.
  cbv zeta. apply (gdrive_find_again 1 "a" (start tree_a)).
  - vm_compute. reflexivity.
  - reflexivity.
Defined.

Lemma gdrive_find_root_witness :
  gdrive_find 1 "/" (start tree_a)
  = (Ok "root", World tree_a (<["/" := "root"]> ∅) []).
Proof.
  apply (gdrive_find_root 1 "/" (start tree_a)).
  - right. right. reflexivity.
  - reflexivity.
  - reflexivity.
Defined.

(** The lock held by another process for two more seconds. *)
Definition contended : state := State [] 0 [] 2 1 1.

(** The same drive once the two seconds have passed. *)
Definition released : state := State [] 0 [] 0 1 1.

Lemma contended_lock_fails : lock_fails 2 contended released.
Proof.
  eapply lock_fails_S; [reflexivity|].
  eapply lock_fails_S; [reflexivity|].
  apply lock_fails_O.
Qed.

(** With sixty attempts [mutex_lock] gets the lock at the third one,
    which is the first [flock] grants; with two attempts it exits though
    the lock would have been free at the third. *)
Lemma mutex_lock_bounded_witness :
  flock lockfile released = (released, true)
  /\ mutex_lock 60 (start contended)
     = (Ok lockfile,
        World released ∅
          [EvFlock lockfile false; EvSleep 1; EvFlock lockfile false;
           EvSleep 1; EvFlock lockfile true])
  /\ mutex_lock 2 (start contended)
     = (Exit 1,
        World released ∅
          [EvFlock lockfile false; EvSleep 1; EvFlock lockfile false;
           EvSleep 1; EvPrint "googleapi could not get a lock"])
  /\ exists (k : nat) (e1 : state),
       (k <= Z.to_nat 60)%nat
       /\ lock_fails k (env (start contended)) e1
       /\ ((k < Z.to_nat 60)%nat
           /\ (exists e2 : state,
                 flock lockfile e1 = (e2, true)
                 /\ mutex_lock 60 (start contended)
                    = (Ok lockfile,
                       World e2 (gdriveids (start contended))
                         (log (start contended) ++ failed_attempts k
                            ++ [EvFlock lockfile true])))
           \/
           k = Z.to_nat 60
           /\ mutex_lock 60 (start contended)
              = (Exit 1,
                 World e1 (gdriveids (start contended))
                   (log (start contended) ++ failed_attempts k
                      ++ [EvPrint "googleapi could not get a lock"]))).
Proof.
  split; [reflexivity|].
  split; [vm_compute; reflexivity|].
  split; [vm_compute; reflexivity|].
  exact (mutex_lock_bounded 60 (start contended)).
Defined.

Lemma gdrive_mkdir_lock_bracket_witness :
  let w := start contended in
  let r := gdrive_mkdir 1 "a" false w in
  fst r = Ok "id0"
  /\ lock_fails 2 (env w) released
  /\ flock lockfile released = (released, true)
  /\ log (snd r)
     = [EvFlock lockfile false; EvSleep 1; EvFlock lockfile false; EvSleep 1;
        EvFlock lockfile true;
        EvRequest (FilesList (QFolderNamed fmime "root" "a")
                     "nextPageToken,files(id,name)" None);
        EvRequest (FilesCreate (Metadata "a" (Some fmime) (Some ["root"]))
                     None);
        EvClose lockfile; EvRemove lockfile]
  /\ exists (k : nat) (e1 e2 : state) (w2 : world state) (mid : list event),
       (k < 60)%nat
       /\ lock_fails k (env w) e1
       /\ flock lockfile e1 = (e2, true)
       /\ mkdir_walk 1 false (Py.split Py.slash "a") "root" ""
            (World e2 (gdriveids w)
               (log w ++ failed_attempts k ++ [EvFlock lockfile true]))
          = (Ok (Finished "id0"), w2)
       /\ log w2
          = (log w ++ failed_attempts k ++ [EvFlock lockfile true]) ++ mid
       /\ Forall no_lock mid
       /\ os_remove lockfile (env w2) = (env (snd r), None)
       /\ gdriveids (snd r) = gdriveids w2
       /\ log (snd r) = log w2 ++ [EvClose lockfile; EvRemove lockfile].
Proof.
  cbv zeta. split; [vm_compute; reflexivity|].
  split; [exact contended_lock_fails|].
  split; [reflexivity|].
  split; [vm_compute; reflexivity|].
  apply (gdrive_mkdir_lock_bracket 1 "a" (start contended) _ "id0").
  - reflexivity.
  - vm_compute. reflexivity.
Defined.

Lemma gdrive_mkdir_exit_keeps_lock_witness :
  let r := gdrive_mkdir 11 "a" false (start (failing 11)) in
  fst r = Exit 1 /\ extends not_released (start (failing 11)) (snd r).
Proof.
  cbv zeta. split; [vm_compute; reflexivity|].
  apply (gdrive_mkdir_exit_keeps_lock 11 "a" false (start (failing 11)) _ 1).
  vm_compute. reflexivity.
Defined.

Lemma gdrive_delete_needs_cached_path_witness :
  fst (gdrive_delete 1 "root" "x" (start delete_tree)) <> Ok tt.
Proof.
  apply (gdrive_delete_needs_cached_path 1 "root" "x" (start delete_tree)).
  reflexivity.
Defined.

Lemma gdrive_mkdir_then_find_witness :
  let w' := snd (gdrive_mkdir 1 "a/b" false (start empty)) in
  gdrive_find 1 "a/b" w' = (Ok "id1", w').
Proof.
  cbv zeta. apply (gdrive_mkdir_then_find 1 "a/b" false (start empty)).
  - vm_compute. repeat (constructor; [discriminate|]). constructor.
  - vm_compute. reflexivity.
  - reflexivity.
Defined.

Lemma gdrive_command_simple_only_delete_deletes_witness :
  extends lists_only (start tree_a)
    (snd (gdrive_command_simple 1 "list" "a" (start tree_a))).
Proof.
  apply (gdrive_command_simple_only_delete_deletes 1 "list" "a" (start tree_a)).
  discriminate.
Defined.

Lemma gdrive_command_simple_delete_keeps_cache_witness :
  let r := gdrive_command_simple 1 "delete" "a" (start tree_a) in
  objects (env (snd r)) = []
  /\ exists gid,
       Py.truthy gid = true
       /\ (exists pre, log (snd r) = pre ++ [EvRequest (FilesDelete gid)])
       /\ gdriveids (snd r) !! "a" = Some gid
       /\ gdrive_find 1 "a" (snd r) = (Ok gid, snd r).
Proof.
  cbv zeta. split; [vm_compute; reflexivity|].
  apply (gdrive_command_simple_delete_keeps_cache 1 "a" (start tree_a)).
  vm_compute. reflexivity.
Defined.

Lemma gdrive_command_simple_not_found_witness :
  exists gid w1,
    gdrive_find 1 "b" (start tree_a) = (Ok gid, w1)
    /\ Py.truthy gid = false
    /\ snd (gdrive_command_simple 1 "id" "b" (start tree_a))
       = World (env w1) (gdriveids w1)
           (log w1 ++ [EvPrint "ERROR: File not found on google drive"]).
Proof.
  apply (gdrive_command_simple_not_found 1 "id" "b" (start tree_a)).
  vm_compute. reflexivity.
Defined.

End DriveMore.

Module PagerMore.
Import Pager.

(** A listing of one file that carries only its [id]. *)
Definition bare_listing : state :=
  [(None, Response (Some [file "a"]) None None "")].

Lemma files_branch_needs_created_time_witness :
  files_branch 1 "files" "root" (World bare_listing ∅ [])
  = (Raise "KeyError: 'createdTime'",
     World bare_listing ∅
       [EvRequest (FilesList (QFilesIn fmime "root")
                     (fsel (Some "id,name,createdTime,mimeType")) None);
        EvPrint sep]).
Proof.
  apply (files_branch_needs_created_time 1 "files" "root"
           (World bare_listing ∅ [])
           (World bare_listing ∅
              [EvRequest (FilesList (QFilesIn fmime "root")
                            (fsel (Some "id,name,createdTime,mimeType")) None)])
           (VFiles [file "a"])).
  - reflexivity.
  - exists (file "a"). split; [left | reflexivity].
Defined.

End PagerMore.
